(** * Verification of the utilities of [07_Machine_Learning.ipynb]

    The notebook defines six small Python functions: [split_data],
    [train_test_split], [accuracy], [precision], [recall] and [f1_score].
    This development embeds them in Rocq and checks their specification.

    - Python [int] is [Z]; Python [float] is IEEE 754 binary64, taken from
      the Standard Library's executable specification [SpecFloat].
    - Python lists are mutable objects: they live in a store ([gmap] from
      references to list contents) and functions receive references.
    - [random] is a tape of raw draws carried in the state.
    - Exceptions are values of [exn]; a computation returns a [result]. *)

From Stdlib Require Import ZArith QArith Qabs Qround Qpower Lia Lqa SpecFloat.
From stdpp Require Import base option list gmap.

#[local] Open Scope Z_scope.

(** ** Python exceptions and results *)

Inductive exn : Type :=
  | ZeroDivisionError
  | OverflowError
  | ValueError
  | IndexError
  | TypeError.

Inductive result (A : Type) : Type :=
  | Ok (a : A)
  | Raise (e : exn).

Arguments Ok {A} a.
Arguments Raise {A} e.

#[global] Instance result_ret : MRet result := fun A a => Ok a.
#[global] Instance result_bind : MBind result := fun A B f r =>
  match r with
  | Ok a => f a
  | Raise e => Raise e
  end.

Definition is_ok {A} (r : result A) : Prop := ∃ a, r = Ok a.

(** ** Python floats: IEEE 754 binary64 *)

Module F64.

Definition prec : Z := 53.
Definition emax : Z := 1024.

Definition float : Type := spec_float.

Definition zero : float := S754_zero false.
Definition one : float := S754_finite false 4503599627370496 (-52).

Definition mul : float → float → float := SFmul prec emax.
Definition add : float → float → float := SFadd prec emax.
Definition sub : float → float → float := SFsub prec emax.
Definition div : float → float → float := SFdiv prec emax.

Definition eqb : float → float → bool := SFeqb.
Definition ltb : float → float → bool := SFltb.
Definition leb : float → float → bool := SFleb.

Definition valid (f : float) : Prop := valid_binary prec emax f = true.

Definition is_infinity (f : float) : bool :=
  match f with
  | S754_infinity _ => true
  | _ => false
  end.

(** The nearest binary64 to the integer [z] (ties to even); infinite when
    [z] is out of range. *)
Definition round_int (z : Z) : float := binary_normalize prec emax z 0 false.

(** The nearest binary64 to the quotient [a / b] of two integers, [b]
    nonzero: the quotient is developed to at least [prec] bits together
    with the position of the remainder, then rounded once. *)
Definition round_quot (a b : Z) : float :=
  let sign := xorb (a <? 0) (b <? 0) in
  if a =? 0 then S754_zero sign
  else
    let '(q, e, l) := SFdiv_core_binary prec emax (Z.abs a) 0 (Z.abs b) 0 in
    binary_round_aux prec emax sign q e l.

(** The exact rational value of a finite float (0 for the others). *)
Definition to_Q (f : float) : Q :=
  match f with
  | S754_finite s m e =>
      let n := cond_Zopp s (Zpos m) in
      if 0 <=? e then inject_Z (n * 2 ^ e) else Qmake n (Z.to_pos (2 ^ (- e)))
  | _ => 0%Q
  end.

(** [0.0 <= f <= n] on values, for an integer [n]: [f] is a zero, or is
    positive with a mantissa [m] and an exponent [e <= 0] such that
    [m * 2^e <= n]. *)
Definition le_int (f : float) (n : Z) : Prop :=
  match f with
  | S754_zero _ => True
  | S754_finite false m e => e <= 0 ∧ Zpos m <= n * 2 ^ (- e)
  | _ => False
  end.

Definition in_unit (f : float) : Prop := le_int f 1.

(** [0.0 <= f <= n * 2^g] on values. *)
Definition le_scaled (f : float) (n g : Z) : Prop :=
  match f with
  | S754_zero _ => True
  | S754_finite false m e => e <= g ∧ Zpos m <= n * 2 ^ (g - e)
  | _ => False
  end.

(** The fraction is a genuine binary64 with [0.0 <= f <= 1.0], as Python
    compares them. *)
Definition fraction (f : float) : Prop :=
  valid f ∧ leb zero f = true ∧ leb f one = true.

(** Smallest integer above the number located by mantissa [m] and
    position [l]. *)
Definition loc_ceil (m : Z) (l : location) : Z :=
  match l with
  | loc_Exact => m
  | loc_Inexact _ => m + 1
  end.

(** A shifted mantissa, with its round and sticky bits, denotes a number
    in [[0, B]]. *)
Definition shr_bound (mrs : shr_record) (B : Z) : Prop :=
  0 <= shr_m mrs <= B ∧ (shr_r mrs || shr_s mrs = true → shr_m mrs + 1 <= B).

End F64.

Abbreviation float := F64.float.

(** ** Python arithmetic used by the notebook *)

(** [float(z)] as done implicitly by a mixed [int]/[float] operation. *)
Definition float_of_int (z : Z) : result float :=
  let f := F64.round_int z in
  if F64.is_infinity f then Raise OverflowError else Ok f.

(** [a / b] on two [int]s: true division, correctly rounded. *)
Definition int_truediv (a b : Z) : result float :=
  if b =? 0 then Raise ZeroDivisionError
  else
    let f := F64.round_quot a b in
    if F64.is_infinity f then Raise OverflowError else Ok f.

(** [x / y] on two [float]s. *)
Definition float_truediv (x y : float) : result float :=
  if F64.eqb y F64.zero then Raise ZeroDivisionError else Ok (F64.div x y).

(** [z * x], [z - x] with [z] an [int] and [x] a [float]. *)
Definition int_mul_float (z : Z) (x : float) : result float :=
  fz ← float_of_int z; mret (F64.mul fz x).

Definition int_sub_float (z : Z) (x : float) : result float :=
  fz ← float_of_int z; mret (F64.sub fz x).

(** [int(x)]: truncation toward zero. *)
Definition py_int (x : float) : result Z :=
  match x with
  | S754_nan => Raise ValueError
  | S754_infinity _ => Raise OverflowError
  | S754_zero _ => Ok 0
  | S754_finite s m e => Ok (cond_Zopp s (Z.shiftl (Zpos m) e))
  end.

(** [int(n * prob)] for a list length [n]: the cutoff of [split_data]. *)
Definition cut_point (n : nat) (prob : float) : result Z :=
  x ← int_mul_float (Z.of_nat n) prob; py_int x.

(** [math.floor(x)] on a finite float, rounding toward minus infinity. *)
Definition float_floor (x : float) : Z :=
  match x with
  | S754_finite s m e =>
      if 0 <=? e then cond_Zopp s (Zpos m) * 2 ^ e
      else cond_Zopp s (Zpos m) / 2 ^ (- e)
  | _ => 0
  end.

(** ** Confusion-matrix metrics *)

Definition accuracy (tp fp fn tn : Z) : result float :=
  let correct := tp + tn in
  let total := tp + fp + fn + tn in
  int_truediv correct total.

Definition precision (tp fp fn tn : Z) : result float :=
  int_truediv tp (tp + fp).

Definition recall (tp fp fn tn : Z) : result float :=
  int_truediv tp (tp + fn).

Definition f1_score (tp fp fn tn : Z) : result float :=
  p ← precision tp fp fn tn;
  r ← recall tp fp fn tn;
  twop ← int_mul_float 2 p;
  float_truediv (F64.mul twop r) (F64.add p r).

(** The closed forms of the specification, in exact rational arithmetic. *)
Definition spec_accuracy (tp fp fn tn : Z) : Q :=
  (inject_Z (tp + tn) / inject_Z (tp + fp + fn + tn))%Q.

Definition spec_precision (tp fp fn tn : Z) : Q :=
  (inject_Z tp / inject_Z (tp + fp))%Q.

Definition spec_recall (tp fp fn tn : Z) : Q :=
  (inject_Z tp / inject_Z (tp + fn))%Q.

Definition spec_f1 (tp fp fn tn : Z) : Q :=
  let p := spec_precision tp fp fn tn in
  let r := spec_recall tp fp fn tn in
  (2 * p * r / (p + r))%Q.

(** [x] is within [eps] of the rational [q]. *)
Definition close_to (x : float) (q eps : Q) : Prop :=
  (Qabs (F64.to_Q x - q) <= eps)%Q.

(** ** The store of list objects and the random source *)

Definition loc : Type := positive.

(** A Python value held in a list: an [int], or an opaque data point. *)
Inductive val (A : Type) : Type :=
  | VInt (z : Z)
  | VObj (a : A).

Arguments VInt {A} z.
Arguments VObj {A} a.

Section Store.

Context {A : Type}.

(** [heap] maps a reference to the contents of the list object it
    denotes; [tape] is the sequence of raw draws of the generator still to
    come. *)
Record world : Type := World {
  heap : gmap loc (list (val A));
  tape : nat → nat
}.

Definition M (T : Type) : Type := world → result T * world.

#[global] Instance M_ret : MRet M := fun T a w => (Ok a, w).
#[global] Instance M_bind : MBind M := fun T U f m w =>
  match m w with
  | (Ok a, w') => f a w'
  | (Raise e, w') => (Raise e, w')
  end.

Definition lift {T} (r : result T) : M T := fun w => (r, w).

(** *** Primitive operations on list objects *)

Definition get_list (l : loc) : M (list (val A)) := fun w =>
  match heap w !! l with
  | Some xs => (Ok xs, w)
  | None => (Raise TypeError, w)
  end.

Definition set_list (l : loc) (xs : list (val A)) : M unit := fun w =>
  (Ok tt, World (<[l := xs]> (heap w)) (tape w)).

Definition alloc (xs : list (val A)) : M loc := fun w =>
  let l := fresh (dom (heap w)) in
  (Ok l, World (<[l := xs]> (heap w)) (tape w)).

(** [len(x)] *)
Definition len (x : loc) : M nat :=
  xs ← get_list x; mret (length xs).

(** Position in a list of length [n] denoted by the index [i], negative
    indices counting from the end. *)
Definition index_pos (n : nat) (i : Z) : option nat :=
  if i <? 0 then
    if Z.of_nat n + i <? 0 then None else Some (Z.to_nat (Z.of_nat n + i))
  else Some (Z.to_nat i).

(** [x[i]] *)
Definition getitem (x : loc) (i : val A) : M (val A) :=
  match i with
  | VInt z =>
      xs ← get_list x;
      match index_pos (length xs) z ≫= (xs !!.) with
      | Some v => mret v
      | None => lift (Raise IndexError)
      end
  | VObj _ => lift (Raise TypeError)
  end.

(** Bound of a slice: negative bounds count from the end, and bounds are
    clamped to the list. *)
Definition slice_bound (n : nat) (i : Z) : nat :=
  if i <? 0 then Z.to_nat (Z.max 0 (Z.of_nat n + i))
  else Z.to_nat (Z.min i (Z.of_nat n)).

(** [x[:]], [x[:cut]], [x[cut:]]: each builds a new list object. *)
Definition list_copy (x : loc) : M loc :=
  xs ← get_list x; alloc xs.

Definition slice_to (x : loc) (cut : Z) : M loc :=
  xs ← get_list x; alloc (take (slice_bound (length xs) cut) xs).

Definition slice_from (x : loc) (cut : Z) : M loc :=
  xs ← get_list x; alloc (drop (slice_bound (length xs) cut) xs).

(** *** [random.shuffle] *)

(** [randbelow(n)]: the next raw draw reduced below [n]. *)
Definition randbelow (n : nat) : M nat := fun w =>
  (Ok (tape w 0 `mod` n)%nat, World (heap w) (fun k => tape w (S k))).

(** [x[i], x[j] = x[j], x[i]] *)
Definition swap_items (x : loc) (i j : nat) : M unit :=
  xs ← get_list x;
  match xs !! j, xs !! i with
  | Some xj, Some xi => set_list x (<[j := xi]> (<[i := xj]> xs))
  | _, _ => lift (Raise IndexError)
  end.

(** The loop [for i in reversed(range(1, len(x)))], entered at [i]. *)
Fixpoint shuffle_from (i : nat) (x : loc) : M unit :=
  match i with
  | O => mret tt
  | S i' =>
      j ← randbelow (S i);
      swap_items x i j;;
      shuffle_from i' x
  end.

Definition random_shuffle (x : loc) : M unit :=
  n ← len x; shuffle_from (n - 1) x.

(** *** The splitters *)

Definition split_data (data : loc) (prob : float) : M (loc * loc) :=
  data ← list_copy data;
  random_shuffle data;;
  n ← len data;
  x ← lift (int_mul_float (Z.of_nat n) prob);
  cut ← lift (py_int x);
  train ← slice_to data cut;
  test ← slice_from data cut;
  mret (train, test).

(** [[x[i] for i in idxs]], the loop then the new list object. *)
Fixpoint collect (x : loc) (idxs : list (val A)) : M (list (val A)) :=
  match idxs with
  | [] => mret []
  | i :: idxs' =>
      v ← getitem x i;
      vs ← collect x idxs';
      mret (v :: vs)
  end.

Definition select (x idxs : loc) : M loc :=
  ixs ← get_list idxs; vs ← collect x ixs; alloc vs.

(** The [int] object for a natural number. *)
Definition vnat (k : nat) : val A := VInt (Z.of_nat k).

(** [[i for i in range(n)]] *)
Definition range_list (n : nat) : M loc :=
  alloc (vnat <$> seq 0 n).

Definition train_test_split (xs ys : loc) (test_pct : float)
  : M (loc * loc * loc * loc) :=
  n ← len xs;
  idxs ← range_list n;
  prob ← lift (int_sub_float 1 test_pct);
  '(train_idxs, test_idxs) ← split_data idxs prob;
  x_train ← select xs train_idxs;
  x_test ← select xs test_idxs;
  y_train ← select ys train_idxs;
  y_test ← select ys test_idxs;
  mret (x_train, x_test, y_train, y_test).

End Store.

Arguments world : clear implicits.
Arguments M : clear implicits.

(** ** Sample inputs *)

Definition quarter : float := S754_finite false 4503599627370496 (-54).
Definition three_quarters : float := S754_finite false 6755399441055744 (-53).

Definition sample_tape : nat → nat := fun k => (7 * k + 3)%nat.

Definition sample_inputs : list (val nat) := VObj <$> [10; 11; 12; 13]%nat.
Definition sample_labels : list (val nat) := VObj <$> [20; 21; 22; 23]%nat.

(** Two lists of four data points, at the references 1 and 2. *)
Definition sample_world : world nat :=
  World (<[2%positive := sample_labels]> (<[1%positive := sample_inputs]> ∅))
        sample_tape.

(** One input and two labels. *)
Definition long_labels_world : world nat :=
  World (<[2%positive := VObj <$> [20; 21]%nat]>
           (<[1%positive := VObj <$> [10]%nat]> ∅))
        sample_tape.

(** Four inputs and one label. *)
Definition short_labels_world : world nat :=
  World (<[2%positive := VObj <$> [20]%nat]> (<[1%positive := sample_inputs]> ∅))
        sample_tape.


(** ** Further notions and sample inputs *)

(** [f] denotes exactly the integer [n]. *)
Definition float_is_int (f : float) (n : Z) : Prop :=
  match f with
  | S754_zero _ => n = 0
  | S754_finite false m e => e <= 0 ∧ Zpos m = n * 2 ^ (- e)
  | _ => False
  end.

(** A computation that only adds objects to the store: every object
    present before is present, with the same contents, after. *)
Definition extends {A T : Type} (m : M A T) : Prop :=
  ∀ w, heap w ⊆ heap (m w).2.

(** [1.5], out of the range of a fraction. *)
Definition one_and_half : float := S754_finite false 6755399441055744 (-52).

(** A store whose only list is empty. *)
Definition empty_world : world nat :=
  World (<[1%positive := []]> ∅) sample_tape.

(** Four inputs and five labels. *)
Definition more_labels_world : world nat :=
  World (<[2%positive := VObj <$> [20; 21; 22; 23; 24]%nat]>
           (<[1%positive := sample_inputs]> ∅))
        sample_tape.

(** The data of the notebook's test, [xs = [x for x in range(1000)]] and
    [ys = [2 * x for x in xs]], at the references 1 and 2. *)
Definition notebook_xs : list (val nat) := VInt <$> (Z.of_nat <$> seq 0 1000).
Definition notebook_ys : list (val nat) :=
  VInt <$> ((λ x, 2 * Z.of_nat x) <$> seq 0 1000).
Definition notebook_world : world nat :=
  World (<[2%positive := notebook_ys]> (<[1%positive := notebook_xs]> ∅))
        sample_tape.

(** ** Notions for the comparison with exact arithmetic *)

(** [n * 2^g <= f] on values, for a positive integer [n]: [f] is positive
    with a mantissa [m] and an exponent [e <= g] such that
    [n * 2^g <= m * 2^e]. *)
Definition ge_scaled (f : float) (n g : Z) : Prop :=
  match f with
  | S754_finite false m e => e <= g ∧ n * 2 ^ (g - e) <= Zpos m
  | _ => False
  end.


(** A positive normal binary64 (53 significant bits) with its exponent in
    [[lo, hi]]. *)
Definition normal_in (f : float) (lo hi : Z) : Prop :=
  match f with
  | S754_finite false m e => 2 ^ 52 <= Zpos m < 2 ^ 53 ∧ lo <= e <= hi
  | _ => False
  end.


(** The float nearest to [0.7], slightly below 7/10. *)
Definition seven_tenths : float := S754_finite false 6305039478318694 (-53).

(** A list of ten data points, at the reference 1. *)
Definition ten_inputs : list (val nat) := VObj <$> seq 0 10.

Definition ten_world : world nat :=
  World (<[1%positive := ten_inputs]> ∅) sample_tape.


(** * Facts about binary64 rounding *)

Module F64Facts.

Import F64.

Lemma digits2_pos_size p : digits2_pos p = Pos.size p.
Proof. induction p; simpl; congruence. Qed.

Lemma Zdigits2_le m j : 0 <= j → 0 <= m < 2 ^ j → Zdigits2 m <= j.
Proof.
  intros Hj [Hm Hlt]. destruct m as [|p|p]; simpl; [lia| |lia].
  rewrite digits2_pos_size.
  destruct (Z_lt_le_dec j (Zpos (Pos.size p))) as [Hgt|]; [|lia].
  exfalso. pose proof (Pos.size_le p) as Hle.
  apply Pos2Z.pos_le_pos in Hle. rewrite Pos2Z.inj_pow in Hle.
  assert (2 ^ (j + 1) <= 2 ^ Zpos (Pos.size p)) by (apply Z.pow_le_mono_r; lia).
  rewrite Z.pow_add_r in * by lia. lia.
Qed.

(** Powers of two are positive. *)
Ltac pow2_pos e :=
  assert (0 < 2 ^ e) by (apply Z.pow_pos_nonneg; lia).

Lemma fexp_le x g : x <= 53 + g → -1074 <= g → fexp prec emax x <= g.
Proof. unfold fexp, emin, prec, emax. lia. Qed.

Lemma shr_1_bound mrs B : shr_bound mrs (2 * B) → shr_bound (shr_1 mrs) B.
Proof.
  destruct mrs as [m r s]. unfold shr_bound. simpl. intros [[H0 HB] Hup].
  destruct m as [|[p|p|]|p]; simpl in *; try lia;
    (split; [lia|]); intros Hrs;
    try specialize (Hup Hrs); lia.
Qed.

Lemma pow2_xO p : 2 ^ Zpos p~0 = 2 ^ Zpos p * 2 ^ Zpos p.
Proof. rewrite <- Z.pow_add_r by lia. f_equal. lia. Qed.

Lemma pow2_xI p : 2 ^ Zpos p~1 = 2 * (2 ^ Zpos p * 2 ^ Zpos p).
Proof.
  rewrite <- pow2_xO. rewrite <- (Z.pow_succ_r 2) by lia. f_equal; lia.
Qed.

Lemma iter_shr_1_bound p : ∀ mrs B,
  shr_bound mrs (2 ^ Zpos p * B) → shr_bound (SpecFloat.iter_pos shr_1 p mrs) B.
Proof.
  induction p as [p IH|p IH|]; intros mrs B H; cbn [SpecFloat.iter_pos].
  - apply IH, IH, shr_1_bound. rewrite pow2_xI in H.
    by replace (2 * (2 ^ Zpos p * (2 ^ Zpos p * B)))
      with (2 * (2 ^ Zpos p * 2 ^ Zpos p) * B) by lia.
  - apply IH, IH. rewrite pow2_xO in H.
    by replace (2 ^ Zpos p * (2 ^ Zpos p * B))
      with (2 ^ Zpos p * 2 ^ Zpos p * B) by lia.
  - apply shr_1_bound. by change (2 ^ 1) with 2 in H.
Qed.

Lemma shr_record_of_loc_bound m l B :
  0 <= m → loc_ceil m l <= B → shr_bound (shr_record_of_loc m l) B.
Proof.
  intros Hm Hc. unfold shr_bound.
  destruct l as [|[]]; simpl in *; (split; [lia|]); intros; try lia; done.
Qed.

(** One normalisation step keeps the number below a bound [n * 2^g]
    with [n < 2^53], and keeps the exponent at most [g]. *)
Lemma shr_fexp_bound m e l n g :
  0 <= m → e <= g → -1074 <= g → 0 <= n < 2 ^ 53 →
  loc_ceil m l <= n * 2 ^ (g - e) →
  ∀ mrs' e', shr_fexp prec emax m e l = (mrs', e') →
  e' <= g ∧ shr_bound mrs' (n * 2 ^ (g - e')).
Proof.
  intros Hm He Hg Hn Hc mrs' e'. unfold shr_fexp, shr.
  assert (Hmle : m <= n * 2 ^ (g - e)) by (destruct l; simpl in Hc; lia).
  assert (Hdig : Zdigits2 m + e <= 53 + g).
  { assert (Zdigits2 m <= 53 + (g - e)); [|lia].
    apply Zdigits2_le; [lia|]. split; [done|].
    rewrite Z.pow_add_r by lia.
    pow2_pos (g - e).
    apply Z.le_lt_trans with (1 := Hmle). apply Z.mul_lt_mono_pos_r; lia. }
  pose proof (fexp_le _ _ Hdig Hg) as Hfe.
  destruct (fexp prec emax (Zdigits2 m + e) - e) as [|k|k] eqn:Hk;
    intros [= <- <-].
  - split; [done|]. by apply shr_record_of_loc_bound.
  - split; [lia|]. apply iter_shr_1_bound.
    apply shr_record_of_loc_bound; [done|].
    replace (2 ^ Zpos k * (n * 2 ^ (g - (e + Zpos k)))) with (n * 2 ^ (g - e)); [done|].
    replace (g - e) with (Zpos k + (g - (e + Zpos k))) at 1 by lia.
    rewrite Z.pow_add_r by lia. lia.
  - split; [done|]. by apply shr_record_of_loc_bound.
Qed.

Lemma round_nearest_even_bound mrs B :
  shr_bound mrs B →
  0 <= round_nearest_even (shr_m mrs) (loc_of_shr_record mrs) <= B.
Proof.
  destruct mrs as [m [] []]; unfold shr_bound; simpl; intros [[? ?] Hup];
    try destruct (Z.even m); lia.
Qed.

(** Rounding to nearest never crosses a float [n * 2^g]: a number of
    [[0, n * 2^g]] rounds to a binary64 of [[0, n * 2^g]], in particular
    to a finite one. *)
Lemma binary_round_aux_scaled m e l n g :
  0 <= m → e <= g → -1074 <= g <= 971 → 0 <= n < 2 ^ 53 →
  loc_ceil m l <= n * 2 ^ (g - e) →
  le_scaled (binary_round_aux prec emax false m e l) n g.
Proof.
  intros Hm He [Hg Hg'] Hn Hc. unfold binary_round_aux.
  destruct (shr_fexp prec emax m e l) as [mrs1 e1] eqn:H1.
  destruct (shr_fexp_bound _ _ _ _ _ Hm He Hg Hn Hc _ _ H1) as [He1 Hb1].
  pose proof (round_nearest_even_bound _ _ Hb1) as Hr.
  set (mr := round_nearest_even _ _) in *.
  destruct (shr_fexp prec emax mr e1 loc_Exact) as [mrs2 e2] eqn:H2.
  assert (Hc2 : loc_ceil mr loc_Exact <= n * 2 ^ (g - e1)) by (simpl; lia).
  destruct (shr_fexp_bound _ _ _ _ _ (proj1 Hr) He1 Hg Hn Hc2 _ _ H2)
    as [He2 [[Hm2 Hm2'] _]].
  destruct (shr_m mrs2) as [|p|p]; simpl; [done| |lia].
  replace (e2 <=? emax - prec) with true; [done|].
  symmetry. apply Z.leb_le. unfold emax, prec. lia.
Qed.

Lemma le_scaled_0 f n : le_scaled f n 0 → le_int f n.
Proof. by destruct f as [| | |[] m e]. Qed.

(** The same for an integer bound [n < 2^53]. *)
Lemma binary_round_aux_bound m e l n :
  0 <= m → e <= 0 → 0 <= n < 2 ^ 53 →
  loc_ceil m l <= n * 2 ^ (- e) →
  le_int (binary_round_aux prec emax false m e l) n.
Proof.
  intros Hm He Hn Hc. apply le_scaled_0.
  apply binary_round_aux_scaled; [done|done|lia|done|]. by rewrite Z.sub_0_l.
Qed.

Lemma new_location_0 nb : new_location nb 0 = loc_Exact.
Proof.
  unfold new_location, new_location_even, new_location_odd.
  by destruct (Z.even nb).
Qed.

Lemma loc_ceil_le m l : loc_ceil m l <= m + 1.
Proof. destruct l; simpl; lia. Qed.

(** The quotient of [0 <= a <= b] rounds into [[0, 1]]. *)
Lemma round_quot_in_unit a b : 0 <= a <= b → 0 < b → in_unit (round_quot a b).
Proof.
  intros [Ha Hab] Hb. unfold round_quot, in_unit.
  replace (a <? 0) with false by (symmetry; apply Z.ltb_ge; lia).
  replace (b <? 0) with false by (symmetry; apply Z.ltb_ge; lia).
  destruct (Z.eqb_spec a 0) as [->|Hne]; [done|].
  rewrite !Z.abs_eq by lia. unfold SFdiv_core_binary.
  set (e' := Z.min _ _). assert (He' : e' <= 0) by (unfold e'; lia).
  replace (0 - 0 - e') with (- e') by lia.
  set (m' := match - e' with Z0 => a | Zpos _ => Z.shiftl a (- e') | Zneg _ => 0 end).
  assert (Hm' : m' = a * 2 ^ (- e')).
  { unfold m'. destruct (- e') as [|k|k] eqn:Hk; [lia| |lia].
    apply Z.shiftl_mul_pow2. lia. }
  assert (HP : 0 < 2 ^ (- e')) by (apply Z.pow_pos_nonneg; lia).
  pose proof (Z_div_mod m' b ltac:(lia)) as Hdiv.
  destruct (Z.div_eucl m' b) as [q r]. destruct Hdiv as [Hq Hr].
  assert (Hq0 : 0 <= q) by nia.
  apply binary_round_aux_bound; [done|done|lia|].
  rewrite Z.mul_1_l. destruct (Z.eq_dec r 0) as [->|Hr0].
  - rewrite new_location_0. simpl. nia.
  - etrans; [apply loc_ceil_le|]. nia.
Qed.

Lemma shl_align_spec mx ex ex' :
  ∀ mz ez, shl_align mx ex ex' = (mz, ez) →
  ez = Z.min ex ex' ∧ Zpos mz = Zpos mx * 2 ^ (ex - ez).
Proof.
  intros mz ez. unfold shl_align.
  destruct (ex' - ex) as [|d|d] eqn:Hd; intros [= <- <-].
  - rewrite Z.sub_diag. lia.
  - rewrite Z.sub_diag. lia.
  - split; [lia|]. replace (ex - ex') with (Zpos d) by lia.
    apply Pos.iter_ind with (P := fun d a => Zpos a = Zpos mx * 2 ^ Zpos d).
    + rewrite Pos2Z.inj_xO. change (2 ^ 1) with 2. lia.
    + intros p a IH. rewrite Pos2Z.inj_xO, IH, Pos2Z.inj_succ, Z.pow_succ_r; lia.
Qed.

Lemma binary_round_scaled m e n g :
  e <= g → -1074 <= g <= 971 → 0 <= n < 2 ^ 53 → Zpos m <= n * 2 ^ (g - e) →
  le_scaled (binary_round prec emax false m e) n g.
Proof.
  intros He Hg Hn Hm. unfold binary_round.
  destruct (shl_align m e _) as [mz ez] eqn:Hal.
  apply shl_align_spec in Hal as [Hez Hmz].
  apply binary_round_aux_scaled; [lia|lia|done|done|]. simpl. rewrite Hmz.
  replace (g - ez) with (g - e + (e - ez)) by lia.
  rewrite Z.pow_add_r by lia.
  pow2_pos (e - ez). nia.
Qed.

Lemma binary_round_bound m e n :
  e <= 0 → 0 <= n < 2 ^ 53 → Zpos m <= n * 2 ^ (- e) →
  le_int (binary_round prec emax false m e) n.
Proof.
  intros He Hn Hm. apply le_scaled_0.
  apply binary_round_scaled; [done|lia|done|]. by rewrite Z.sub_0_l.
Qed.

(** An integer of [[0, n * 2^g]] converts to a float of that range. *)
Lemma round_int_scaled z n g :
  0 <= g <= 971 → 0 <= n < 2 ^ 53 → 0 <= z <= n * 2 ^ g →
  le_scaled (round_int z) n g.
Proof.
  intros Hg Hn Hz. unfold round_int, binary_normalize.
  destruct z as [|p|p]; [done| |lia].
  apply binary_round_scaled; [lia|lia|done|]. rewrite Z.sub_0_r. apply Hz.
Qed.

Lemma le_scaled_finite f n g : le_scaled f n g → is_infinity f = false.
Proof. by destruct f as [| | |[]]. Qed.

Lemma mul_le_scaled x p n g :
  -1074 <= g <= 971 → 0 <= n < 2 ^ 53 →
  le_scaled x n g → in_unit p → le_scaled (mul x p) n g.
Proof.
  intros Hg Hn Hx Hp. unfold in_unit in Hp.
  destruct x as [sx| | |[] mx ex], p as [sp| | |[] mp ep]; try done.
  destruct Hx as [Hex Hmx], Hp as [Hep Hmp]. unfold mul, SFmul. simpl xorb.
  apply binary_round_aux_scaled; [lia|lia|done|done|]. simpl loc_ceil.
  rewrite Pos2Z.inj_mul. replace (g - (ex + ep)) with (g - ex + - ep) by lia.
  rewrite Z.pow_add_r by lia.
  pow2_pos (g - ex).
  pow2_pos (- ep). nia.
Qed.

(** [int()] of a finite non-negative float returns. *)
Lemma py_int_le_scaled f n g : le_scaled f n g → ∃ c, py_int f = Ok c ∧ 0 <= c.
Proof.
  destruct f as [s| | |[] m e]; try done; simpl; intros _.
  - by exists 0.
  - eexists. split; [done|]. by apply Z.shiftl_nonneg.
Qed.

(** The cutoff [int(n * p)] of a fraction [p] never raises, for any list
    a 64-bit CPython can hold. *)
Lemma cut_point_ok n p :
  Z.of_nat n < 2 ^ 63 → in_unit p → ∃ c, cut_point n p = Ok c ∧ 0 <= c.
Proof.
  intros Hn Hp.
  assert (Hr : le_scaled (round_int (Z.of_nat n)) (2 ^ 52) 11).
  { apply round_int_scaled; [lia|done|].
    change (2 ^ 52 * 2 ^ 11) with (2 ^ 63). lia. }
  assert (Hm : le_scaled (mul (round_int (Z.of_nat n)) p) (2 ^ 52) 11)
    by (apply mul_le_scaled; [lia|done..]).
  unfold cut_point, int_mul_float, float_of_int.
  rewrite (le_scaled_finite _ _ _ Hr). cbn [mbind result_bind mret result_ret].
  by apply py_int_le_scaled in Hm.
Qed.

(** Converting a list length to [float] does not exceed it. *)
Lemma round_int_le n : 0 <= n < 2 ^ 53 → le_int (round_int n) n.
Proof.
  intros Hn. apply le_scaled_0, round_int_scaled; [lia|done|].
  change (2 ^ 0) with 1. lia.
Qed.

Lemma le_int_finite f n : le_int f n → is_infinity f = false.
Proof. apply (le_scaled_finite f n 0). Qed.

Lemma mul_le_int x p n :
  0 <= n < 2 ^ 53 → le_int x n → in_unit p → le_int (mul x p) n.
Proof.
  intros Hn Hx Hp. apply le_scaled_0, mul_le_scaled; [lia|done|exact Hx|done].
Qed.

(** The complement [1 - t] of a float in [[0, 1]] is in [[0, 1]]. *)
Lemma sub_one_in_unit t : in_unit t → in_unit (sub one t).
Proof.
  unfold in_unit. destruct t as [s| | |[] m e]; try done.
  intros [He Hm]. rewrite Z.mul_1_l in Hm.
  unfold sub, one, SFsub.
  set (ez := Z.min (-52) e).
  destruct (shl_align 4503599627370496 (-52) ez) as [m1 e1] eqn:H1.
  destruct (shl_align m e ez) as [m2 e2] eqn:H2.
  apply shl_align_spec in H1 as [He1 Hm1], H2 as [He2 Hm2].
  cbn [fst cond_Zopp].
  assert (He1' : e1 = ez) by (unfold ez in *; lia).
  assert (He2' : e2 = ez) by (unfold ez in *; lia).
  assert (Hez : ez <= 0) by (unfold ez; lia).
  assert (H1 : Zpos m1 = 2 ^ (- ez)).
  { rewrite Hm1, He1'. change 4503599627370496 with (2 ^ 52).
    rewrite <- Z.pow_add_r by lia. f_equal. lia. }
  assert (H2 : Zpos m2 <= 2 ^ (- ez)).
  { rewrite Hm2, He2'. replace (- ez) with (- e + (e - ez)) by lia.
    rewrite Z.pow_add_r by lia.
    apply Z.mul_le_mono_nonneg_r; [|done]. apply Z.pow_nonneg. lia. }
  unfold binary_normalize.
  destruct (Zpos m1 - Zpos m2) as [|d|d] eqn:Hd; [done| |lia].
  apply binary_round_bound; [done|done|lia].
Qed.

Lemma canonical_mantissa_lt m e :
  canonical_mantissa prec emax m e = true → Zpos m < 2 ^ 53.
Proof.
  unfold canonical_mantissa, fexp. intros Hc.
  apply Z.eqb_eq in Hc. rewrite digits2_pos_size in Hc.
  pose proof (Pos.size_gt m) as Hsz. apply Pos2Z.pos_lt_pos in Hsz.
  rewrite Pos2Z.inj_pow in Hsz.
  eapply Z.lt_le_trans; [exact Hsz|].
  apply Z.pow_le_mono_r; unfold prec in Hc; lia.
Qed.

Lemma leb_one_finite m e :
  leb (S754_finite false m e) one = true →
  e < -52 ∨ e = -52 ∧ Zpos m <= 2 ^ 52.
Proof.
  unfold leb, SFleb, one, SFcompare.
  destruct (Z.compare_spec e (-52)) as [->|Hlt|Hgt]; [|by left|discriminate].
  rewrite Pos.compare_cont_spec. unfold Pos.switch_Eq.
  destruct (Pos.compare_spec m 4503599627370496) as [->|Hlt|Hgt];
    [by right|intros _; right|discriminate].
  split; [done|]. apply Z.lt_le_incl, Pos2Z.pos_lt_pos, Hlt.
Qed.

Lemma fraction_in_unit f : fraction f → in_unit f.
Proof.
  intros (Hv & H0 & H1). unfold in_unit.
  destruct f as [s|s| |s m e].
  - exact I.
  - destruct s; discriminate.
  - discriminate.
  - destruct s; [discriminate|]. clear H0.
    unfold valid, valid_binary, bounded in Hv.
    apply andb_prop in Hv as [Hc _]. apply canonical_mantissa_lt in Hc.
    apply leb_one_finite in H1. cbn [le_int]. rewrite Z.mul_1_l.
    destruct H1 as [Hlt|[-> Hm]]; [|done].
    split; [lia|]. etrans; [apply Z.lt_le_incl, Hc|].
    apply Z.pow_le_mono_r; lia.
Qed.

(** On a float in [[0, n]], [int()] returns the floor, an integer of
    [[0, n]]. *)
Lemma py_int_floor f n :
  0 <= n → le_int f n → py_int f = Ok (float_floor f) ∧ 0 <= float_floor f <= n.
Proof.
  intros Hn Hf. destruct f as [s| | |[] m e]; try done.
  destruct Hf as [He Hm]. cbn [py_int float_floor cond_Zopp].
  assert (Hs : Z.shiftl (Zpos m) e = Zpos m / 2 ^ (- e)).
  { rewrite <- Z.shiftr_div_pow2 by lia. by rewrite Z.shiftr_opp_r. }
  assert (HP : 0 < 2 ^ (- e)) by (apply Z.pow_pos_nonneg; lia).
  assert (Hb : 0 <= Zpos m / 2 ^ (- e) <= n).
  { split; [apply Z.div_pos; lia|]. apply Z.div_le_upper_bound; lia. }
  rewrite Hs. destruct (Z.leb_spec 0 e) as [He0|He0]; [|done].
  replace e with 0 in * by lia. change (2 ^ (- 0)) with 1 in *.
  change (2 ^ 0) with 1. rewrite Z.div_1_r in *. by rewrite Z.mul_1_r.
Qed.

(** The cutoff [int(n * p)] of a fraction [p] never raises and lies in
    [[0, n]]. *)
Lemma cut_point_in_unit n p :
  Z.of_nat n < 2 ^ 53 → in_unit p →
  let c := float_floor (mul (round_int (Z.of_nat n)) p) in
  cut_point n p = Ok c ∧ 0 <= c <= Z.of_nat n.
Proof.
  intros Hn Hp c. assert (Hn' : 0 <= Z.of_nat n < 2 ^ 53) by lia.
  pose proof (round_int_le _ Hn') as Hr.
  pose proof (mul_le_int _ _ _ Hn' Hr Hp) as Hm.
  unfold cut_point, int_mul_float, float_of_int.
  rewrite (le_int_finite _ _ Hr). cbn [mbind result_bind mret result_ret].
  apply py_int_floor; [lia|done].
Qed.

End F64Facts.

(** * Facts about the store and the splitters *)

Section StoreFacts.

Context {A : Type}.
Implicit Types (w : world A) (xs ys : list (val A)) (h : gmap loc (list (val A))).

Lemma bind_run {T U} (m : M A T) (f : T → M A U) w :
  (m ≫= f) w =
  match m w with
  | (Ok a, w') => f a w'
  | (Raise e, w') => (Raise e, w')
  end.
Proof. done. Qed.

Lemma lift_run {T} (r : result T) w : lift r w = (r, w).
Proof. done. Qed.

Lemma world_eta w : World (heap w) (tape w) = w.
Proof. by destruct w. Qed.

Lemma fresh_None h : h !! fresh (dom h) = None.
Proof. apply not_elem_of_dom, is_fresh. Qed.

Lemma insert_fresh_subseteq h xs : h ⊆ <[fresh (dom h) := xs]> h.
Proof. apply insert_subseteq, fresh_None. Qed.

Lemma get_list_run x xs w : heap w !! x = Some xs → get_list x w = (Ok xs, w).
Proof. unfold get_list. by intros ->. Qed.

Lemma len_run x xs w : heap w !! x = Some xs → len x w = (Ok (length xs), w).
Proof. intros H. unfold len. by rewrite bind_run, (get_list_run _ _ _ H). Qed.

Lemma swap_items_run x xs i j w :
  heap w !! x = Some xs → (i < length xs)%nat → (j < length xs)%nat →
  ∃ xs', xs' ≡ₚ xs ∧
    swap_items x i j w = (Ok tt, World (<[x := xs']> (heap w)) (tape w)).
Proof.
  intros Hx Hi Hj. unfold swap_items. rewrite bind_run, (get_list_run _ _ _ Hx).
  destruct (lookup_lt_is_Some_2 xs i Hi) as [xi Hxi].
  destruct (lookup_lt_is_Some_2 xs j Hj) as [xj Hxj].
  rewrite Hxi, Hxj. eexists. split; [|done].
  by apply Permutation_insert_swap.
Qed.

(** The shuffle loop rearranges the list object in place and touches
    nothing else. *)
Lemma shuffle_from_run i : ∀ x xs w,
  heap w !! x = Some xs → (i < length xs)%nat →
  ∃ xs' t', xs' ≡ₚ xs ∧
    shuffle_from i x w = (Ok tt, World (<[x := xs']> (heap w)) t').
Proof.
  induction i as [|i IH]; intros x xs w Hx Hi.
  - exists xs, (tape w). split; [done|]. simpl.
    rewrite insert_id by done. by rewrite world_eta.
  - cbn [shuffle_from]. rewrite bind_run. cbn [randbelow].
    set (j := (tape w 0 `mod` S (S i))%nat).
    assert (Hj : (j < length xs)%nat).
    { pose proof (Nat.mod_upper_bound (tape w 0) (S (S i))). lia. }
    rewrite bind_run.
    destruct (swap_items_run x xs (S i) j (World (heap w) (λ k, tape w (S k))))
      as (xs1 & Hp1 & ->); [done..|]. cbn [heap tape].
    destruct (IH x xs1 (World (<[x:=xs1]> (heap w)) (λ k, tape w (S k))))
      as (xs2 & t2 & Hp2 & ->).
    { apply lookup_insert_eq. }
    { apply Permutation_length in Hp1. lia. }
    exists xs2, t2. split; [by etrans|]. cbn [heap]. by rewrite insert_insert_eq.
Qed.

Lemma random_shuffle_run x xs w :
  heap w !! x = Some xs →
  ∃ xs' t', xs' ≡ₚ xs ∧
    random_shuffle x w = (Ok tt, World (<[x := xs']> (heap w)) t').
Proof.
  intros Hx. unfold random_shuffle. rewrite bind_run, (len_run _ _ _ Hx).
  destruct xs as [|v xs].
  - exists [], (tape w). split; [done|]. simpl.
    rewrite insert_id by done. by rewrite world_eta.
  - apply shuffle_from_run; [done|]. simpl. lia.
Qed.

Lemma split_data_absent data p w :
  heap w !! data = None → split_data data p w = (Raise TypeError, w).
Proof.
  intros H. unfold split_data, list_copy, get_list. rewrite !bind_run.
  by rewrite H.
Qed.

(** What a call of [split_data] does, step by step: it allocates a copy,
    shuffles the copy, and, unless the cutoff raises, allocates the two
    slices of the shuffled copy. *)
Lemma split_data_run data p w xs :
  heap w !! data = Some xs →
  ∃ xs' t', xs' ≡ₚ xs ∧
    let h1 := <[fresh (dom (heap w)) := xs']> (heap w) in
    split_data data p w =
      match cut_point (length xs) p with
      | Raise e => (Raise e, World h1 t')
      | Ok cut =>
          let k := slice_bound (length xs) cut in
          let h2 := <[fresh (dom h1) := take k xs']> h1 in
          (Ok (fresh (dom h1), fresh (dom h2)),
           World (<[fresh (dom h2) := drop k xs']> h2) t')
      end.
Proof.
  intros Hd. unfold split_data, list_copy.
  rewrite !bind_run, (get_list_run _ _ _ Hd). cbn [alloc heap tape].
  set (c := fresh (dom (heap w))). rewrite bind_run.
  destruct (random_shuffle_run c xs (World (<[c:=xs]> (heap w)) (tape w)))
    as (xs' & t' & Hp & ->); [apply lookup_insert_eq|].
  cbn [heap tape]. rewrite insert_insert_eq.
  exists xs', t'. split; [done|]. cbn zeta.
  set (h1 := <[c:=xs']> (heap w)).
  assert (H1 : h1 !! c = Some xs') by apply lookup_insert_eq.
  rewrite bind_run, (len_run c xs' (World h1 t')) by done.
  rewrite (Permutation_length Hp). unfold cut_point.
  rewrite bind_run. unfold lift at 1.
  destruct (int_mul_float _ p) as [x|e]; [|done].
  rewrite bind_run. unfold lift at 1. cbn [mbind result_bind].
  destruct (py_int x) as [cut|e]; [|done].
  unfold slice_to, slice_from.
  rewrite !bind_run, (get_list_run c xs' (World h1 t')) by done.
  cbn [alloc heap tape]. rewrite !bind_run.
  rewrite (get_list_run c xs').
  2:{ cbn [heap]. rewrite lookup_insert_ne; [done|].
      intros Heq. pose proof (fresh_None h1) as Hf. rewrite Heq in Hf. congruence. }
  cbn [alloc heap tape]. by rewrite (Permutation_length Hp).
Qed.

Lemma lookup_insert_fresh h x xs ys :
  h !! x = Some xs → <[fresh (dom h) := ys]> h !! x = Some xs.
Proof. intros H. eapply lookup_weaken; [done|]. apply insert_fresh_subseteq. Qed.

(** Every list object of the caller is left as it was, whatever the
    outcome of the call. *)
Lemma split_data_frame data p w : heap w ⊆ heap (split_data data p w).2.
Proof.
  destruct (heap w !! data) as [xs|] eqn:Hd.
  - destruct (split_data_run data p w xs Hd) as (xs' & t' & _ & ->).
    destruct (cut_point (length xs) p) as [cut|e]; cbn [snd heap].
    + etrans; [apply (insert_fresh_subseteq _ xs')|].
      etrans; apply insert_fresh_subseteq.
    + apply insert_fresh_subseteq.
  - by rewrite split_data_absent.
Qed.

Lemma split_data_ok data p w xs cut :
  heap w !! data = Some xs → cut_point (length xs) p = Ok cut →
  ∃ train test w' xs',
    split_data data p w = (Ok (train, test), w') ∧
    xs' ≡ₚ xs ∧
    heap w' !! train = Some (take (slice_bound (length xs) cut) xs') ∧
    heap w' !! test = Some (drop (slice_bound (length xs) cut) xs') ∧
    heap w ⊆ heap w'.
Proof.
  intros Hd Hc. pose proof (split_data_frame data p w) as Hfr.
  destruct (split_data_run data p w xs Hd) as (xs' & t' & Hp & Hrun).
  rewrite Hc in Hrun. cbn zeta in Hrun. rewrite Hrun in Hfr |- *.
  eexists _, _, _, xs'. split; [done|]. split; [done|]. cbn [heap snd] in *.
  split; [|split; [|done]].
  - apply lookup_insert_fresh, lookup_insert_eq.
  - apply lookup_insert_eq.
Qed.

Lemma slice_bound_cut n cut :
  0 <= cut <= Z.of_nat n → slice_bound n cut = Z.to_nat cut.
Proof.
  intros Hc. unfold slice_bound.
  destruct (Z.ltb_spec cut 0); [lia|]. f_equal. lia.
Qed.

Lemma split_data_raise data p w xs e :
  heap w !! data = Some xs → cut_point (length xs) p = Raise e →
  ∃ w', split_data data p w = (Raise e, w').
Proof.
  intros Hd Hc. destruct (split_data_run data p w xs Hd) as (xs' & t' & _ & ->).
  rewrite Hc. by eexists.
Qed.

Lemma alloc_run xs w :
  ∃ l w', alloc xs w = (Ok l, w') ∧ heap w' !! l = Some xs ∧ heap w ⊆ heap w'.
Proof.
  eexists _, _. split; [done|]. cbn [heap]. split.
  - apply lookup_insert_eq.
  - apply insert_fresh_subseteq.
Qed.

Lemma getitem_vnat x xs k w :
  heap w !! x = Some xs →
  getitem x (vnat k) w =
    (match xs !! k with Some v => Ok v | None => Raise IndexError end, w).
Proof.
  intros Hx. unfold getitem, vnat. rewrite bind_run, (get_list_run _ _ _ Hx).
  unfold index_pos. destruct (Z.ltb_spec (Z.of_nat k) 0) as [?|_]; [lia|].
  cbn [mbind option_bind]. rewrite Nat2Z.id. by destruct (xs !! k).
Qed.

Lemma collect_vnat x xs ks w :
  heap w !! x = Some xs →
  collect x (vnat <$> ks) w =
    (match mapM (xs !!.) ks with Some vs => Ok vs | None => Raise IndexError end, w).
Proof.
  intros Hx. induction ks as [|k ks IH]; [done|].
  cbn [fmap list_fmap collect mapM]. rewrite bind_run, (getitem_vnat _ _ _ _ Hx).
  destruct (xs !! k) as [v|]; [|done]. cbn [mbind option_bind].
  rewrite bind_run. cbn [fmap] in IH. rewrite IH.
  by destruct (mapM _ ks).
Qed.

Lemma select_ok x idxs xs ks vs w :
  heap w !! idxs = Some (vnat <$> ks) → heap w !! x = Some xs →
  mapM (xs !!.) ks = Some vs →
  ∃ l w', select x idxs w = (Ok l, w') ∧ heap w' !! l = Some vs ∧
    heap w ⊆ heap w'.
Proof.
  intros Hi Hx Hm. unfold select.
  rewrite bind_run, (get_list_run _ _ _ Hi), bind_run, (collect_vnat _ _ _ _ Hx), Hm.
  apply alloc_run.
Qed.

Lemma select_fail x idxs xs ks w :
  heap w !! idxs = Some (vnat <$> ks) → heap w !! x = Some xs →
  mapM (xs !!.) ks = None →
  select x idxs w = (Raise IndexError, w).
Proof.
  intros Hi Hx Hm. unfold select.
  by rewrite bind_run, (get_list_run _ _ _ Hi), bind_run, (collect_vnat _ _ _ _ Hx), Hm.
Qed.

Lemma mapM_lookup_total xs (ks : list nat) :
  Forall (λ k, (k < length xs)%nat) ks → ∃ vs, mapM (xs !!.) ks = Some vs.
Proof.
  intros H. apply (mapM_is_Some_2 (xs !!.)).
  eapply Forall_impl; [done|]. intros k Hk. by apply lookup_lt_is_Some_2.
Qed.

(** What a call of [train_test_split] does: the indices [0 .. n-1] are
    shuffled into [ks] and cut at [k]; the four results are read from
    [xs] and [ys] at the indices before and after the cut; reading [ys]
    fails when an index is beyond its end. *)
Lemma train_test_split_run lx ly t w xs ys :
  heap w !! lx = Some xs → heap w !! ly = Some ys →
  let n := length xs in
  let prob := F64.sub F64.one t in
  match cut_point n prob with
  | Raise e => ∃ w', train_test_split lx ly t w = (Raise e, w')
  | Ok cut =>
      ∃ ks xtr xte, ks ≡ₚ seq 0 n ∧
        let tr := take (slice_bound n cut) ks in
        let te := drop (slice_bound n cut) ks in
        mapM (xs !!.) tr = Some xtr ∧ mapM (xs !!.) te = Some xte ∧
        match mapM (ys !!.) tr, mapM (ys !!.) te with
        | Some ytr, Some yte =>
            ∃ x_train x_test y_train y_test w',
              train_test_split lx ly t w =
                (Ok (x_train, x_test, y_train, y_test), w') ∧
              heap w' !! x_train = Some xtr ∧ heap w' !! x_test = Some xte ∧
              heap w' !! y_train = Some ytr ∧ heap w' !! y_test = Some yte
        | _, _ => ∃ w', train_test_split lx ly t w = (Raise IndexError, w')
        end
  end.
Proof.
  intros Hx Hy n prob. unfold train_test_split.
  rewrite bind_run, (len_run _ _ _ Hx), bind_run. fold n. unfold range_list.
  destruct (alloc_run (vnat <$> seq 0 n) w) as (li & w1 & -> & Hli & Hs1).
  assert (Hsub : int_sub_float 1 t = Ok prob) by done.
  rewrite bind_run, lift_run, Hsub, bind_run.
  assert (Hlen : length (@vnat A <$> seq 0 n) = n) by by rewrite length_fmap, length_seq.
  destruct (cut_point n prob) as [cut|e] eqn:Hc.
  2:{ rewrite <- Hlen in Hc.
      destruct (split_data_raise _ _ _ _ _ Hli Hc) as (w' & ->). by eexists. }
  pose proof Hc as Hc'. rewrite <- Hlen in Hc'.
  destruct (split_data_ok _ _ _ _ _ Hli Hc') as (ltr & lte & w2 & xs' & -> & Hp & Htr & Hte & Hs2).
  rewrite Hlen in Htr, Hte.
  apply Permutation_map_inv in Hp as (ks & -> & Hks).
  change (map vnat ks) with (@vnat A <$> ks) in *.
  rewrite <- fmap_take in Htr. rewrite <- fmap_drop in Hte.
  set (tr := take (slice_bound n cut) ks) in *.
  set (te := drop (slice_bound n cut) ks) in *.
  assert (Hall : Forall (λ k, (k < length xs)%nat) ks).
  { apply Forall_forall. intros k Hk. rewrite <- Hks in Hk.
    apply elem_of_seq in Hk. fold n. lia. }
  destruct (mapM_lookup_total xs tr) as [xtr Hxtr]; [by apply Forall_take|].
  destruct (mapM_lookup_total xs te) as [xte Hxte]; [by apply Forall_drop|].
  exists ks, xtr, xte. split; [done|]. cbn zeta. fold tr te.
  split; [done|]. split; [done|].
  assert (Hx2 : heap w2 !! lx = Some xs) by eauto using lookup_weaken.
  assert (Hy2 : heap w2 !! ly = Some ys) by eauto using lookup_weaken.
  destruct (select_ok lx ltr xs tr xtr w2) as (l1 & w3 & E1 & Hl1 & Hs3); [done..|].
  assert (Hx3 : heap w3 !! lx = Some xs) by eauto using lookup_weaken.
  assert (Hte3 : heap w3 !! lte = Some (vnat <$> te)) by eauto using lookup_weaken.
  destruct (select_ok lx lte xs te xte w3) as (l2 & w4 & E2 & Hl2 & Hs4); [done..|].
  assert (Hy4 : heap w4 !! ly = Some ys) by eauto using lookup_weaken.
  assert (Htr4 : heap w4 !! ltr = Some (vnat <$> tr)) by eauto using lookup_weaken.
  assert (Hte4 : heap w4 !! lte = Some (vnat <$> te)) by eauto using lookup_weaken.
  cbn beta iota. rewrite bind_run, E1, bind_run, E2, bind_run.
  destruct (mapM (ys !!.) tr) as [ytr|] eqn:Hytr.
  2:{ rewrite (select_fail ly ltr ys tr w4) by done. by eexists. }
  destruct (select_ok ly ltr ys tr ytr w4) as (l3 & w5 & -> & Hl3 & Hs5); [done..|].
  assert (Hy5 : heap w5 !! ly = Some ys) by eauto using lookup_weaken.
  assert (Hte5 : heap w5 !! lte = Some (vnat <$> te)) by eauto using lookup_weaken.
  rewrite bind_run.
  destruct (mapM (ys !!.) te) as [yte|] eqn:Hyte.
  2:{ rewrite (select_fail ly lte ys te w5) by done. by eexists. }
  destruct (select_ok ly lte ys te yte w5) as (l4 & w6 & -> & Hl4 & Hs6); [done..|].
  exists l1, l2, l3, l4, w6. split; [done|].
  repeat split; eauto 10 using lookup_weaken.
Qed.

(** ** The random splitter *)

(** C1: for a list (of fewer than [2^63] elements, as every list of a
    64-bit CPython) and a fraction [p] of [[0, 1]], [split_data] returns
    two new lists whose concatenation is a permutation of the input:
    nothing is lost and nothing is duplicated. *)
Theorem split_data_permutation data p w xs :
  heap w !! data = Some xs →
  Z.of_nat (length xs) < 2 ^ 63 →
  F64.fraction p →
  ∃ train test w' tr te,
    split_data data p w = (Ok (train, test), w') ∧
    heap w' !! train = Some tr ∧
    heap w' !! test = Some te ∧
    tr ++ te ≡ₚ xs.
Proof.
  intros Hd Hn Hp. apply F64Facts.fraction_in_unit in Hp.
  destruct (F64Facts.cut_point_ok _ _ Hn Hp) as (cut & Hc & _).
  destruct (split_data_ok _ _ _ _ _ Hd Hc)
    as (train & test & w' & xs' & Hr & Hperm & Htr & Hte & _).
  eexists train, test, w', _, _. repeat split; [done..|].
  by rewrite take_drop.
Qed.

(** C9: [split_data] works on a copy; after the call, whatever [prob]
    was and whether or not the call raised, the caller's list holds the
    same elements in the same order. *)
Theorem split_data_preserves_input data p w xs :
  heap w !! data = Some xs →
  heap (split_data data p w).2 !! data = Some xs.
Proof. intros Hd. eapply lookup_weaken; [done|]. apply split_data_frame. Qed.

(** ** The paired splitter *)

(** C3: for two lists of the same length (below [2^63], as every list of
    a 64-bit CPython) and a fraction [test_pct] of [[0, 1]],
    [train_test_split] returns four new lists; the train lists have the
    same length, the test lists have the same length, and there is one
    partition [tr ++ te] of the indices [0 .. n-1] such that position [j]
    of [x_train] and of [y_train] hold [xs[tr[j]]] and [ys[tr[j]]], and
    likewise for the test lists with [te]. *)
Theorem train_test_split_paired lx ly t w xs ys :
  heap w !! lx = Some xs → heap w !! ly = Some ys →
  length xs = length ys →
  Z.of_nat (length xs) < 2 ^ 63 →
  F64.fraction t →
  ∃ x_train x_test y_train y_test w' xtr xte ytr yte tr te,
    train_test_split lx ly t w = (Ok (x_train, x_test, y_train, y_test), w') ∧
    heap w' !! x_train = Some xtr ∧ heap w' !! x_test = Some xte ∧
    heap w' !! y_train = Some ytr ∧ heap w' !! y_test = Some yte ∧
    length xtr = length ytr ∧ length xte = length yte ∧
    tr ++ te ≡ₚ seq 0 (length xs) ∧
    Forall2 (λ i v, xs !! i = Some v) tr xtr ∧
    Forall2 (λ i v, ys !! i = Some v) tr ytr ∧
    Forall2 (λ i v, xs !! i = Some v) te xte ∧
    Forall2 (λ i v, ys !! i = Some v) te yte.
Proof.
  intros Hx Hy Hlen Hn Ht.
  pose proof (train_test_split_run lx ly t w xs ys Hx Hy) as Hrun.
  cbn zeta in Hrun.
  assert (Hprob : F64.in_unit (F64.sub F64.one t))
    by by apply F64Facts.sub_one_in_unit, F64Facts.fraction_in_unit.
  destruct (F64Facts.cut_point_ok _ _ Hn Hprob) as (cut & Hc & _).
  rewrite Hc in Hrun. destruct Hrun as (ks & xtr & xte & Hks & Hxtr & Hxte & Hrun).
  set (k := slice_bound _ _) in *.
  assert (Hall : Forall (λ i, (i < length ys)%nat) ks).
  { apply Forall_forall. intros i Hi. rewrite Hks in Hi.
    apply elem_of_seq in Hi. lia. }
  destruct (mapM_lookup_total ys (take k ks)) as [ytr Hytr]; [by apply Forall_take|].
  destruct (mapM_lookup_total ys (drop k ks)) as [yte Hyte]; [by apply Forall_drop|].
  rewrite Hytr, Hyte in Hrun.
  destruct Hrun as (x_train & x_test & y_train & y_test & w' & Hr & H1 & H2 & H3 & H4).
  apply mapM_Some_1 in Hxtr, Hxte, Hytr, Hyte.
  exists x_train, x_test, y_train, y_test, w', xtr, xte, ytr, yte, (take k ks), (drop k ks).
  repeat split; try done.
  - rewrite <- (Forall2_length _ _ _ Hxtr). apply (Forall2_length _ _ _ Hytr).
  - rewrite <- (Forall2_length _ _ _ Hxte). apply (Forall2_length _ _ _ Hyte).
  - by rewrite take_drop.
Qed.

(** C4, as the code has it: when the label list is shorter than the
    input list, [train_test_split] raises, whatever [test_pct] is. *)
Theorem train_test_split_short_labels lx ly t w xs ys :
  heap w !! lx = Some xs → heap w !! ly = Some ys →
  (length ys < length xs)%nat →
  ∃ e w', train_test_split lx ly t w = (Raise e, w').
Proof.
  intros Hx Hy Hlen.
  pose proof (train_test_split_run lx ly t w xs ys Hx Hy) as Hrun.
  cbn zeta in Hrun.
  destruct (cut_point _ _) as [cut|e]; [|destruct Hrun as [w' ->]; by eexists _, _].
  destruct Hrun as (ks & xtr & xte & Hks & _ & _ & Hrun).
  set (k := slice_bound _ _) in *.
  destruct (mapM (ys !!.) (take k ks)) as [ytr|] eqn:Hytr;
    [|destruct Hrun as [w' ->]; by eexists _, _].
  destruct (mapM (ys !!.) (drop k ks)) as [yte|] eqn:Hyte;
    [|destruct Hrun as [w' ->]; by eexists _, _].
  exfalso. apply mapM_Some_1 in Hytr, Hyte.
  assert (Hin : length ys ∈ take k ks ++ drop k ks).
  { rewrite take_drop, Hks. apply elem_of_seq. lia. }
  apply elem_of_app in Hin as [Hin|Hin];
    apply list_elem_of_lookup in Hin as [j Hj].
  - destruct (Forall2_lookup_l _ _ _ _ _ Hytr Hj) as (v & _ & Hv).
    apply lookup_lt_Some in Hv. lia.
  - destruct (Forall2_lookup_l _ _ _ _ _ Hyte Hj) as (v & _ & Hv).
    apply lookup_lt_Some in Hv. lia.
Qed.

End StoreFacts.

(** ** The splitters on the sample inputs *)

Lemma split_data_permutation_witness :
  heap sample_world !! 1%positive = Some sample_inputs ∧
  Z.of_nat (length sample_inputs) < 2 ^ 63 ∧
  F64.fraction three_quarters ∧
  ∃ train test w' tr te,
    split_data 1%positive three_quarters sample_world = (Ok (train, test), w') ∧
    heap w' !! train = Some tr ∧
    heap w' !! test = Some te ∧
    tr ++ te ≡ₚ sample_inputs.
Proof.
  assert (H1 : heap sample_world !! 1%positive = Some sample_inputs) by reflexivity.
  assert (H2 : Z.of_nat (length sample_inputs) < 2 ^ 63) by reflexivity.
  assert (H3 : F64.fraction three_quarters) by (repeat split; reflexivity).
  exact (conj H1 (conj H2 (conj H3
           (split_data_permutation 1%positive three_quarters sample_world
              sample_inputs H1 H2 H3)))).
Defined.

Lemma split_data_preserves_input_witness :
  heap sample_world !! 1%positive = Some sample_inputs ∧
  heap (split_data 1%positive three_quarters sample_world).2 !! 1%positive =
    Some sample_inputs.
Proof.
  assert (H1 : heap sample_world !! 1%positive = Some sample_inputs) by reflexivity.
  exact (conj H1 (split_data_preserves_input 1%positive three_quarters
                    sample_world sample_inputs H1)).
Defined.

(** Without the copy the caller's list would change: shuffling the sample
    list in place moves its elements. *)
Example random_shuffle_in_place :
  heap (random_shuffle 1%positive sample_world).2 !! 1%positive =
    Some (VObj <$> [10; 12; 11; 13]%nat).
Proof. reflexivity. Qed.

(** The floor is the floor of the binary64 product: with ten elements and
    the float nearest to 0.7 (slightly below 7/10) the product rounds to
    7.0 and seven elements are taken, although the exact product is below
    7. *)
Example cut_point_ten_by_07 :
  let p := S754_finite false 6305039478318694 (-53) in
  cut_point 10 p = Ok 7 ∧ (F64.to_Q p * 10 < 7)%Q.
Proof. split; reflexivity. Qed.

Lemma train_test_split_paired_witness :
  heap sample_world !! 1%positive = Some sample_inputs ∧
  heap sample_world !! 2%positive = Some sample_labels ∧
  length sample_inputs = length sample_labels ∧
  Z.of_nat (length sample_inputs) < 2 ^ 63 ∧
  F64.fraction quarter ∧
  ∃ x_train x_test y_train y_test w' xtr xte ytr yte tr te,
    train_test_split 1%positive 2%positive quarter sample_world =
      (Ok (x_train, x_test, y_train, y_test), w') ∧
    heap w' !! x_train = Some xtr ∧ heap w' !! x_test = Some xte ∧
    heap w' !! y_train = Some ytr ∧ heap w' !! y_test = Some yte ∧
    length xtr = length ytr ∧ length xte = length yte ∧
    tr ++ te ≡ₚ seq 0 (length sample_inputs) ∧
    Forall2 (λ i v, sample_inputs !! i = Some v) tr xtr ∧
    Forall2 (λ i v, sample_labels !! i = Some v) tr ytr ∧
    Forall2 (λ i v, sample_inputs !! i = Some v) te xte ∧
    Forall2 (λ i v, sample_labels !! i = Some v) te yte.
Proof.
  assert (H1 : heap sample_world !! 1%positive = Some sample_inputs) by reflexivity.
  assert (H2 : heap sample_world !! 2%positive = Some sample_labels) by reflexivity.
  assert (H3 : length sample_inputs = length sample_labels) by reflexivity.
  assert (H4 : Z.of_nat (length sample_inputs) < 2 ^ 63) by reflexivity.
  assert (H5 : F64.fraction quarter) by (repeat split; reflexivity).
  exact (conj H1 (conj H2 (conj H3 (conj H4 (conj H5
           (train_test_split_paired 1%positive 2%positive quarter sample_world
              sample_inputs sample_labels H1 H2 H3 H4 H5)))))).
Defined.

Lemma train_test_split_short_labels_witness :
  heap short_labels_world !! 1%positive = Some sample_inputs ∧
  heap short_labels_world !! 2%positive = Some (VObj <$> [20]%nat) ∧
  (length (VObj <$> [20]%nat : list (val nat)) < length sample_inputs)%nat ∧
  ∃ e w', train_test_split 1%positive 2%positive quarter short_labels_world =
            (Raise e, w').
Proof.
  assert (H1 : heap short_labels_world !! 1%positive = Some sample_inputs)
    by reflexivity.
  assert (H2 : heap short_labels_world !! 2%positive = Some (VObj <$> [20]%nat))
    by reflexivity.
  assert (H3 : (length (VObj <$> [20]%nat : list (val nat)) < length sample_inputs)%nat)
    by (vm_compute; lia).
  exact (conj H1 (conj H2 (conj H3
           (train_test_split_short_labels 1%positive 2%positive quarter
              short_labels_world sample_inputs (VObj <$> [20]%nat) H1 H2 H3)))).
Defined.

(** * The confusion-matrix metrics *)

Section Metrics.

Variables tp fp fn tn : Z.
Hypothesis Htp : 0 <= tp.
Hypothesis Hfp : 0 <= fp.
Hypothesis Hfn : 0 <= fn.
Hypothesis Htn : 0 <= tn.

Lemma int_truediv_ratio a b :
  0 <= a <= b → 0 < b →
  int_truediv a b = Ok (F64.round_quot a b) ∧ F64.in_unit (F64.round_quot a b).
Proof.
  intros Ha Hb. pose proof (F64Facts.round_quot_in_unit a b Ha Hb) as Hu.
  split; [|done]. unfold int_truediv.
  destruct (Z.eqb_spec b 0); [lia|].
  by rewrite (F64Facts.le_int_finite _ _ Hu).
Qed.


(** C6: on non-negative counts [accuracy], [precision] and [recall]
    raise [ZeroDivisionError] exactly when their denominator is zero, and
    return a float otherwise. *)
Theorem metrics_division_by_zero :
  (accuracy tp fp fn tn = Raise ZeroDivisionError ↔ tp + fp + fn + tn = 0) ∧
  (precision tp fp fn tn = Raise ZeroDivisionError ↔ tp + fp = 0) ∧
  (recall tp fp fn tn = Raise ZeroDivisionError ↔ tp + fn = 0) ∧
  (tp + fp + fn + tn ≠ 0 → is_ok (accuracy tp fp fn tn)) ∧
  (tp + fp ≠ 0 → is_ok (precision tp fp fn tn)) ∧
  (tp + fn ≠ 0 → is_ok (recall tp fp fn tn)).
Proof.
  assert (Hgen : ∀ a b, 0 <= a <= b →
    (int_truediv a b = Raise ZeroDivisionError ↔ b = 0) ∧
    (b ≠ 0 → is_ok (int_truediv a b))).
  { intros a b Hab. destruct (Z.eq_dec b 0) as [->|Hb].
    - split; [done|]. by intros [].
    - destruct (int_truediv_ratio a b) as [Hq _]; [lia..|]. rewrite Hq.
      split; [split; [done|lia]|]. intros _. by eexists. }
  unfold accuracy, precision, recall.
  destruct (Hgen (tp + tn) (tp + fp + fn + tn)) as [? ?]; [lia|].
  destruct (Hgen tp (tp + fp)) as [? ?]; [lia|].
  destruct (Hgen tp (tp + fn)) as [? ?]; [lia|].
  done.
Qed.

Lemma int_truediv_0_l b : b ≠ 0 → 0 <= b → int_truediv 0 b = Ok F64.zero.
Proof.
  intros Hb Hb0. unfold int_truediv, F64.round_quot.
  destruct (Z.eqb_spec b 0); [done|].
  replace (b <? 0) with false by (symmetry; apply Z.ltb_ge; lia). done.
Qed.

Lemma spec_ratio_zero t a :
  0 <= t → 0 < a →
  (0 <= inject_Z t / inject_Z a)%Q ∧ ((inject_Z t / inject_Z a == 0)%Q ↔ t = 0).
Proof.
  intros Ht Ha. destruct a as [|a|a]; [lia| |lia].
  unfold Qdiv, Qinv, Qmult, Qle, Qeq, inject_Z. simpl. lia.
Qed.

(** C10: [f1_score] raises [ZeroDivisionError] as soon as one of the two
    denominators [tp+fp], [tp+fn] is zero, the other one being positive
    or not.  The condition of the specification, precision + recall = 0
    with both defined, holds exactly when [tp = 0] with both denominators
    positive; there [f1_score] raises too, so the set of failing inputs
    is strictly larger than that condition. *)
Theorem f1_score_failure_set :
  (tp + fp = 0 ∨ tp + fn = 0 → f1_score tp fp fn tn = Raise ZeroDivisionError) ∧
  (0 < tp + fp → 0 < tp + fn →
     (spec_precision tp fp fn tn + spec_recall tp fp fn tn == 0)%Q ↔ tp = 0) ∧
  (0 < tp + fp → 0 < tp + fn → tp = 0 →
     f1_score tp fp fn tn = Raise ZeroDivisionError) ∧
  f1_score 0 0 1 0 = Raise ZeroDivisionError ∧
  f1_score 0 1 0 0 = Raise ZeroDivisionError.
Proof.
  split; [|split; [|split; [|done]]].
  - unfold f1_score, precision, recall. intros [H|H].
    + by rewrite H.
    + destruct (Z.eq_dec (tp + fp) 0) as [->|Hne]; [done|].
      assert (tp = 0) as -> by lia. rewrite H.
      rewrite (int_truediv_0_l (0 + fp)) by lia. done.
  - intros Ha Hb. unfold spec_precision, spec_recall.
    destruct (spec_ratio_zero tp (tp + fp)) as [Hp0 Hp]; [done..|].
    destruct (spec_ratio_zero tp (tp + fn)) as [Hr0 Hr]; [done..|].
    split.
    + intros Hsum. apply Hp. lra.
    + intros Hz. apply Hp in Hz as Hz1. apply Hr in Hz as Hz2. lra.
  - intros Ha Hb ->. unfold f1_score, precision, recall.
    rewrite !int_truediv_0_l by lia. done.
Qed.

Lemma harmonic_mean_between (p r : Q) :
  (0 < p → 0 < r → p <= r → p <= 2 * p * r / (p + r) <= r)%Q.
Proof.
  intros Hp Hr Hpr. assert (0 < p + r)%Q by lra. split.
  - apply Qle_shift_div_l; [done|]. nra.
  - apply Qle_shift_div_r; [done|]. nra.
Qed.

Lemma spec_ratio_pos t a : 0 < t → 0 < a → (0 < inject_Z t / inject_Z a)%Q.
Proof.
  intros Ht Ha. destruct a as [|a|a]; [lia| |lia].
  unfold Qdiv, Qinv, Qmult, Qlt, inject_Z. simpl. lia.
Qed.

(** In exact arithmetic the harmonic mean does lie between precision and
    recall when [tp > 0]; only the rounding of [f1_score] can leave the
    interval. *)
Lemma spec_f1_between :
  0 < tp →
  let p := spec_precision tp fp fn tn in
  let r := spec_recall tp fp fn tn in
  let f := spec_f1 tp fp fn tn in
  ((p <= r → p <= f <= r) ∧ (r <= p → r <= f <= p))%Q.
Proof.
  intros Hpos p r f.
  assert (Hp : (0 < p)%Q) by (apply spec_ratio_pos; lia).
  assert (Hr : (0 < r)%Q) by (apply spec_ratio_pos; lia).
  split; intros Hle.
  - by apply harmonic_mean_between.
  - destruct (harmonic_mean_between r p Hr Hp Hle) as [H1 H2].
    assert (Heq : (2 * r * p / (r + p) == f)%Q).
    { unfold f, spec_f1. fold p r. field. lra. }
    by rewrite <- Heq.
Qed.

End Metrics.

(** * The metrics on examples *)

Lemma metrics_division_by_zero_witness :
  0 <= 0 ∧ 0 <= 3 ∧ 0 <= 0 ∧ 0 <= 5 ∧
  (accuracy 0 3 0 5 = Raise ZeroDivisionError ↔ 0 + 3 + 0 + 5 = 0) ∧
  (precision 0 3 0 5 = Raise ZeroDivisionError ↔ 0 + 3 = 0) ∧
  (recall 0 3 0 5 = Raise ZeroDivisionError ↔ 0 + 0 = 0) ∧
  (0 + 3 + 0 + 5 ≠ 0 → is_ok (accuracy 0 3 0 5)) ∧
  (0 + 3 ≠ 0 → is_ok (precision 0 3 0 5)) ∧
  (0 + 0 ≠ 0 → is_ok (recall 0 3 0 5)).
Proof.
  assert (H1 : 0 <= 0) by lia. assert (H2 : 0 <= 3) by lia.
  assert (H3 : 0 <= 5) by lia.
  exact (conj H1 (conj H2 (conj H1 (conj H3
           (metrics_division_by_zero 0 3 0 5 H1 H2 H1 H3))))).
Defined.

Lemma f1_score_failure_set_witness :
  0 <= 0 ∧ 0 <= 3 ∧ 0 <= 0 ∧
  (0 + 3 = 0 ∨ 0 + 0 = 0 → f1_score 0 3 0 5 = Raise ZeroDivisionError) ∧
  (0 < 0 + 3 → 0 < 0 + 0 →
     (spec_precision 0 3 0 5 + spec_recall 0 3 0 5 == 0)%Q ↔ 0 = 0) ∧
  (0 < 0 + 3 → 0 < 0 + 0 → 0 = 0 →
     f1_score 0 3 0 5 = Raise ZeroDivisionError) ∧
  f1_score 0 0 1 0 = Raise ZeroDivisionError ∧
  f1_score 0 1 0 0 = Raise ZeroDivisionError.
Proof.
  assert (H1 : 0 <= 0) by lia. assert (H2 : 0 <= 3) by lia.
  exact (conj H1 (conj H2 (conj H1 (f1_score_failure_set 0 3 0 5 H1 H2 H1)))).
Defined.

(** C8: on the confusion matrix (70, 4930, 13930, 981070) the four metrics
    return floats within [10^-15] of the exact closed forms 981140/1000000,
    70/5000, 70/14000 and 14/1900, hence within [10^-5] of the decimals
    0.98114, 0.014, 0.005 and 0.00736. *)
Theorem metrics_leukemia_example :
  ∃ a p r f,
    accuracy 70 4930 13930 981070 = Ok a ∧
    precision 70 4930 13930 981070 = Ok p ∧
    recall 70 4930 13930 981070 = Ok r ∧
    f1_score 70 4930 13930 981070 = Ok f ∧
    (spec_accuracy 70 4930 13930 981070 == 981140 # 1000000)%Q ∧
    (spec_precision 70 4930 13930 981070 == 70 # 5000)%Q ∧
    (spec_recall 70 4930 13930 981070 == 70 # 14000)%Q ∧
    (spec_f1 70 4930 13930 981070 == 14 # 1900)%Q ∧
    close_to a (spec_accuracy 70 4930 13930 981070) (1 # 10 ^ 15) ∧
    close_to p (spec_precision 70 4930 13930 981070) (1 # 10 ^ 15) ∧
    close_to r (spec_recall 70 4930 13930 981070) (1 # 10 ^ 15) ∧
    close_to f (spec_f1 70 4930 13930 981070) (1 # 10 ^ 15) ∧
    close_to a (98114 # 100000) (1 # 10 ^ 5) ∧
    close_to p (14 # 1000) (1 # 10 ^ 5) ∧
    close_to r (5 # 1000) (1 # 10 ^ 5) ∧
    close_to f (736 # 100000) (1 # 10 ^ 5).
Proof.
  eexists _, _, _, _.
  split; [by vm_compute|]. split; [by vm_compute|].
  split; [by vm_compute|]. split; [by vm_compute|].
  repeat split; by vm_compute.
Qed.

(** C7 fails on the code at (1, 4, 4, 0): precision and recall are both the
    float 0.2 and [f1_score] returns the next float above it. *)
Theorem f1_score_above_precision_and_recall :
  ∃ p r f,
    precision 1 4 4 0 = Ok p ∧ recall 1 4 4 0 = Ok r ∧
    f1_score 1 4 4 0 = Ok f ∧
    p = S754_finite false 7205759403792794 (-55) ∧
    r = S754_finite false 7205759403792794 (-55) ∧
    f = S754_finite false 7205759403792795 (-55) ∧
    F64.ltb F64.zero p = true ∧ F64.ltb F64.zero r = true ∧
    F64.ltb p f = true ∧ F64.ltb r f = true.
Proof. eexists _, _, _. by vm_compute. Qed.

(** C4 as stated fails: with one input and two labels the call returns. *)
Lemma train_test_split_long_labels_returns :
  ¬ (∀ (lx ly : loc) (t : float) (w : world nat) xs ys,
       heap w !! lx = Some xs → heap w !! ly = Some ys →
       length xs ≠ length ys →
       ∃ e w', train_test_split lx ly t w = (Raise e, w')).
Proof.
  intros H.
  destruct (H 1%positive 2%positive quarter long_labels_world
              (VObj <$> [10]%nat) (VObj <$> [20; 21]%nat))
    as (e & w' & Heq); [done|done|done|].
  apply (f_equal fst) in Heq. vm_compute in Heq. discriminate.
Qed.

(** * Rounding is exact on small integers *)

Module F64Exact.

Import F64 F64Facts.

Lemma shr_fexp_bound_int m e l n :
  0 <= m → e <= 0 → 0 <= n < 2 ^ 53 →
  loc_ceil m l <= n * 2 ^ (- e) →
  ∀ mrs' e', shr_fexp prec emax m e l = (mrs', e') →
  e' <= 0 ∧ shr_bound mrs' (n * 2 ^ (- e')).
Proof.
  intros Hm He Hn Hc mrs' e' Hshr. rewrite <- (Z.sub_0_l e) in Hc.
  destruct (shr_fexp_bound m e l n 0 Hm He ltac:(lia) Hn Hc _ _ Hshr) as [He' Hb].
  by rewrite Z.sub_0_l in Hb.
Qed.

Lemma shr_1_lower mrs B : 0 <= B → 2 * B <= shr_m mrs → B <= shr_m (shr_1 mrs).
Proof.
  destruct mrs as [m r s]. simpl. intros HB H.
  destruct m as [|[p|p|]|p]; simpl in *; lia.
Qed.

Lemma iter_shr_1_lower p : ∀ mrs B,
  0 <= B → 2 ^ Zpos p * B <= shr_m mrs → B <= shr_m (SpecFloat.iter_pos shr_1 p mrs).
Proof.
  assert (Hpow : ∀ q, 0 < 2 ^ Zpos q) by (intros q; by apply Z.pow_pos_nonneg).
  induction p as [p IH|p IH|]; intros mrs B HB H; cbn [SpecFloat.iter_pos].
  - rewrite pow2_xI in H. pose proof (Hpow p).
    apply IH; [done|]. apply IH; [nia|]. apply shr_1_lower; nia.
  - rewrite pow2_xO in H. pose proof (Hpow p).
    apply IH; [done|]. apply IH; nia.
  - apply shr_1_lower; [done|]. by change (2 ^ 1) with 2 in H.
Qed.

Lemma shr_record_of_loc_m m l : shr_m (shr_record_of_loc m l) = m.
Proof. by destruct l as [|[]]. Qed.

(** One normalisation step of a mantissa denoting at least [n]. *)
Lemma shr_fexp_lower m e l n :
  e <= 0 → 0 <= n < 2 ^ 53 →
  loc_ceil m l <= n * 2 ^ (- e) → n * 2 ^ (- e) <= m →
  ∀ mrs' e', shr_fexp prec emax m e l = (mrs', e') →
  n * 2 ^ (- e') <= shr_m mrs'.
Proof.
  intros He Hn Hc Hlow mrs' e' Hshr.
  assert (HP : 0 < 2 ^ (- e)) by (apply Z.pow_pos_nonneg; lia).
  assert (Hm : 0 <= m).
  { etrans; [|exact Hlow]. apply Z.mul_nonneg_nonneg; lia. }
  destruct (shr_fexp_bound_int m e l n Hm He Hn Hc _ _ Hshr) as [He' _].
  revert Hshr. unfold shr_fexp, shr.
  destruct (fexp prec emax (Zdigits2 m + e) - e) as [|k|k] eqn:Hk;
    intros [= <- <-]; rewrite ?shr_record_of_loc_m; try done.
  assert (HP' : 0 < 2 ^ (- (e + Zpos k))) by (apply Z.pow_pos_nonneg; lia).
  apply iter_shr_1_lower; [nia|]. rewrite shr_record_of_loc_m.
  replace (2 ^ Zpos k * (n * 2 ^ (- (e + Zpos k)))) with (n * 2 ^ (- e)); [done|].
  replace (- e) with (Zpos k + (- (e + Zpos k))) at 1 by lia.
  rewrite Z.pow_add_r by lia. lia.
Qed.

Lemma round_nearest_even_lower m l : m <= round_nearest_even m l.
Proof. destruct l as [|[]]; simpl; try destruct (Z.even m); lia. Qed.

(** A mantissa and exponent that denote a positive integer below [2^53]
    round to a float that denotes the same integer. *)
Lemma binary_round_aux_exact m e n :
  e <= 0 → 0 < n < 2 ^ 53 → m = n * 2 ^ (- e) →
  float_is_int (binary_round_aux prec emax false m e loc_Exact) n.
Proof.
  intros He Hn Hm.
  assert (HP : 0 < 2 ^ (- e)) by (apply Z.pow_pos_nonneg; lia).
  assert (Hn' : 0 <= n < 2 ^ 53) by lia.
  assert (Hc : loc_ceil m loc_Exact <= n * 2 ^ (- e)) by (simpl; lia).
  assert (Hm0 : 0 <= m) by (rewrite Hm; apply Z.mul_nonneg_nonneg; lia).
  unfold binary_round_aux.
  destruct (shr_fexp prec emax m e loc_Exact) as [mrs1 e1] eqn:H1.
  destruct (shr_fexp_bound_int _ _ _ _ Hm0 He Hn' Hc _ _ H1) as [He1 Hb1].
  pose proof (shr_fexp_lower _ _ _ _ He Hn' Hc ltac:(lia) _ _ H1) as Hl1.
  pose proof (round_nearest_even_bound _ _ Hb1) as Hr.
  pose proof (round_nearest_even_lower (shr_m mrs1) (loc_of_shr_record mrs1)) as Hrl.
  set (mr := round_nearest_even _ _) in *.
  destruct (shr_fexp prec emax mr e1 loc_Exact) as [mrs2 e2] eqn:H2.
  assert (Hc2 : loc_ceil mr loc_Exact <= n * 2 ^ (- e1)) by (simpl; lia).
  destruct (shr_fexp_bound_int _ _ _ _ (proj1 Hr) He1 Hn' Hc2 _ _ H2)
    as [He2 [[Hm2 Hm2'] _]].
  pose proof (shr_fexp_lower _ _ _ _ He1 Hn' Hc2 ltac:(lia) _ _ H2) as Hl2.
  assert (HP2 : 0 < 2 ^ (- e2)) by (apply Z.pow_pos_nonneg; lia).
  destruct (shr_m mrs2) as [|p|p]; simpl; [nia| |lia].
  replace (e2 <=? emax - prec) with true.
  - simpl. lia.
  - symmetry. apply Z.leb_le. unfold emax, prec. lia.
Qed.

Lemma binary_round_exact m e n :
  e <= 0 → 0 < n < 2 ^ 53 → Zpos m = n * 2 ^ (- e) →
  float_is_int (binary_round prec emax false m e) n.
Proof.
  intros He Hn Hm. unfold binary_round.
  destruct (shl_align m e _) as [mz ez] eqn:Hal.
  apply shl_align_spec in Hal as [Hez Hmz].
  apply binary_round_aux_exact; [lia|done|]. rewrite Hmz, Hm.
  replace (- ez) with (- e + (e - ez)) by lia.
  rewrite Z.pow_add_r by lia. lia.
Qed.

(** [float(n)] is exact for [0 <= n < 2^53]. *)
Lemma round_int_exact n : 0 <= n < 2 ^ 53 → float_is_int (round_int n) n.
Proof.
  intros Hn. unfold round_int, binary_normalize.
  destruct n as [|p|p]; [done| |lia].
  apply binary_round_exact; [done|lia|]. simpl. lia.
Qed.

Lemma mul_one_exact x n :
  0 <= n < 2 ^ 53 → float_is_int x n → float_is_int (mul x one) n.
Proof.
  intros Hn Hx. destruct x as [sx| | |[] mx ex]; try done.
  destruct Hx as [Hex Hmx]. unfold mul, one, SFmul. simpl xorb.
  assert (HP : 0 < 2 ^ (- ex)) by (apply Z.pow_pos_nonneg; lia).
  apply binary_round_aux_exact; [lia|nia|].
  rewrite Pos2Z.inj_mul, Hmx. replace (- (ex + -52)) with (- ex + 52) by lia.
  rewrite Z.pow_add_r by lia. change (2 ^ 52) with 4503599627370496. lia.
Qed.

Lemma py_int_exact x n : float_is_int x n → py_int x = Ok n.
Proof.
  destruct x as [s| | |[] m e]; try done; simpl.
  - by intros ->.
  - intros [He Hm]. f_equal.
    assert (Hs : Z.shiftl (Zpos m) e = Zpos m / 2 ^ (- e)).
    { rewrite <- Z.shiftr_div_pow2 by lia. by rewrite Z.shiftr_opp_r. }
    rewrite Hs, Hm. apply Z.div_mul.
    assert (0 < 2 ^ (- e)) by (apply Z.pow_pos_nonneg; lia). lia.
Qed.

Lemma float_is_int_finite x n : float_is_int x n → is_infinity x = false.
Proof. by destruct x as [| | |[]]. Qed.

(** [int(n * 1.0) = n] and [int(n * 0.0) = 0]. *)
Lemma cut_point_one (n : nat) :
  Z.of_nat n < 2 ^ 53 → cut_point n one = Ok (Z.of_nat n).
Proof.
  intros Hn. assert (Hn' : 0 <= Z.of_nat n < 2 ^ 53) by lia.
  pose proof (round_int_exact _ Hn') as Hr.
  unfold cut_point, int_mul_float, float_of_int.
  rewrite (float_is_int_finite _ _ Hr). simpl.
  apply py_int_exact, mul_one_exact; done.
Qed.

Lemma cut_point_zero (n : nat) s :
  Z.of_nat n < 2 ^ 53 → cut_point n (S754_zero s) = Ok 0.
Proof.
  intros Hn. assert (Hn' : 0 <= Z.of_nat n < 2 ^ 53) by lia.
  pose proof (round_int_le _ Hn') as Hr.
  unfold cut_point, int_mul_float, float_of_int.
  rewrite (le_int_finite _ _ Hr). simpl.
  by destruct (round_int (Z.of_nat n)) as [| | |[]].
Qed.

Lemma cut_point_nan (n : nat) :
  Z.of_nat n < 2 ^ 53 → cut_point n S754_nan = Raise ValueError.
Proof.
  intros Hn. assert (Hn' : 0 <= Z.of_nat n < 2 ^ 53) by lia.
  unfold cut_point, int_mul_float, float_of_int.
  rewrite (le_int_finite _ _ (round_int_le _ Hn')). simpl.
  by destruct (round_int (Z.of_nat n)).
Qed.

(** The cutoff raises nothing but [ValueError] and [OverflowError]. *)
Lemma cut_point_raises (n : nat) p e :
  cut_point n p = Raise e → e = ValueError ∨ e = OverflowError.
Proof.
  unfold cut_point, int_mul_float, float_of_int.
  destruct (is_infinity (round_int (Z.of_nat n))); simpl.
  - intros [= <-]. by right.
  - destruct (mul (round_int (Z.of_nat n)) p); simpl; intros [= <-]; auto.
Qed.

End F64Exact.

(** * Further properties of [split_data] *)

Section SplitDataMore.

Context {A : Type}.
Implicit Types (w : world A) (data : loc) (xs : list (val A)).

Import F64 F64Facts F64Exact.

(** X1. [split_data] only adds objects to the store: every list that
    existed before the call, the argument and all the others, has the
    same contents after it, for every [prob] and also when the call
    raises. *)
Theorem split_data_keeps_store w data prob l ys :
  heap w !! l = Some ys → heap (split_data data prob w).2 !! l = Some ys.
Proof. intros Hl. eapply lookup_weaken; [exact Hl|]. apply split_data_frame. Qed.

(** X2. The two lists [split_data] returns are new objects: neither
    denoted anything before the call, so they are distinct from the
    argument and from every other existing list, and they are distinct
    from each other. *)
Theorem split_data_results_fresh w data xs prob train test w' :
  heap w !! data = Some xs →
  split_data data prob w = (Ok (train, test), w') →
  heap w !! train = None ∧ heap w !! test = None
  ∧ train ≠ test ∧ train ≠ data ∧ test ≠ data.
Proof.
  intros Hdata Hrun.
  destruct (split_data_run data prob w xs Hdata) as (xs' & t' & _ & E).
  rewrite E in Hrun. clear E.
  destruct (cut_point (length xs) prob) as [cut|e]; [|done].
  cbn zeta in Hrun. injection Hrun as <- <- <-.
  set (h1 := <[fresh (dom (heap w)) := xs']> (heap w)).
  set (h2 := <[fresh (dom h1) := take (slice_bound (length xs) cut) xs']> h1).
  assert (Hs1 : heap w ⊆ h1) by apply insert_fresh_subseteq.
  assert (Hs2 : h1 ⊆ h2) by apply insert_fresh_subseteq.
  assert (Htr : heap w !! fresh (dom h1) = None).
  { eapply lookup_weaken_None; [apply fresh_None|done]. }
  assert (Hte : heap w !! fresh (dom h2) = None).
  { eapply lookup_weaken_None; [apply fresh_None|by etrans]. }
  repeat split; try done.
  - intros Heq. pose proof (fresh_None h2) as Hf. rewrite <- Heq in Hf.
    unfold h2 in Hf. by rewrite lookup_insert_eq in Hf.
  - intros Heq. rewrite Heq in Htr. congruence.
  - intros Heq. rewrite Heq in Hte. congruence.
Qed.

(** X3. Whatever [prob] is (negative, above one, huge), when
    [split_data] returns, the two lists together are a permutation of the
    input: slicing clamps the cutoff, so no element is lost or
    duplicated. *)
Theorem split_data_partition_any_prob w data xs prob train test w' :
  heap w !! data = Some xs →
  split_data data prob w = (Ok (train, test), w') →
  ∃ ltrain ltest,
    heap w' !! train = Some ltrain ∧ heap w' !! test = Some ltest
    ∧ ltrain ++ ltest ≡ₚ xs.
Proof.
  intros Hdata Hrun.
  destruct (cut_point (length xs) prob) as [cut|e] eqn:Hcut.
  - destruct (split_data_ok data prob w xs cut Hdata Hcut)
      as (tr & te & w1 & xs' & Hrun' & Hperm & Htr & Hte & _).
    rewrite Hrun in Hrun'. injection Hrun' as -> -> ->.
    eexists _, _. repeat split; [done..|]. by rewrite take_drop.
  - destruct (split_data_raise data prob w xs e Hdata Hcut) as (w1 & Hrun').
    by rewrite Hrun in Hrun'.
Qed.

(** X4. The only exceptions [split_data] raises on a list are those of
    [int(len(data) * prob)]: [ValueError] and [OverflowError]. *)
Theorem split_data_exceptions w data xs prob e :
  heap w !! data = Some xs →
  (split_data data prob w).1 = Raise e →
  e = ValueError ∨ e = OverflowError.
Proof.
  intros Hdata Hrun.
  destruct (cut_point (length xs) prob) as [cut|e'] eqn:Hcut.
  - destruct (split_data_ok data prob w xs cut Hdata Hcut)
      as (tr & te & w1 & xs' & Hrun' & _).
    by rewrite Hrun' in Hrun.
  - destruct (split_data_raise data prob w xs e' Hdata Hcut) as (w1 & Hrun').
    rewrite Hrun' in Hrun. injection Hrun as <-.
    by eapply cut_point_raises.
Qed.

(** X5. With [prob] not a number, [split_data] raises [ValueError]. *)
Theorem split_data_nan w data xs :
  heap w !! data = Some xs →
  Z.of_nat (length xs) < 2 ^ 53 →
  (split_data data S754_nan w).1 = Raise ValueError.
Proof.
  intros Hdata Hlen.
  destruct (split_data_raise data S754_nan w xs ValueError Hdata
              (cut_point_nan _ Hlen)) as (w1 & ->).
  done.
Qed.

(** X6. With [prob = 0.0] the first list is empty and the second is a
    permutation of the whole input. *)
Theorem split_data_zero_fraction w data xs s :
  heap w !! data = Some xs →
  Z.of_nat (length xs) < 2 ^ 53 →
  ∃ train test w' ltest,
    split_data data (S754_zero s) w = (Ok (train, test), w')
    ∧ heap w' !! train = Some [] ∧ heap w' !! test = Some ltest
    ∧ ltest ≡ₚ xs.
Proof.
  intros Hdata Hlen.
  destruct (split_data_ok data (S754_zero s) w xs 0 Hdata (cut_point_zero _ s Hlen))
    as (tr & te & w' & xs' & Hrun & Hperm & Htr & Hte & _).
  rewrite slice_bound_cut in Htr, Hte by lia. simpl in Htr, Hte.
  exists tr, te, w', xs'. by repeat split.
Qed.

(** X7. With [prob = 1.0] the first list is a permutation of the whole
    input and the second is empty. *)
Theorem split_data_full_fraction w data xs :
  heap w !! data = Some xs →
  Z.of_nat (length xs) < 2 ^ 53 →
  ∃ train test w' ltrain,
    split_data data one w = (Ok (train, test), w')
    ∧ heap w' !! train = Some ltrain ∧ heap w' !! test = Some []
    ∧ ltrain ≡ₚ xs.
Proof.
  intros Hdata Hlen.
  destruct (split_data_ok data one w xs _ Hdata (cut_point_one _ Hlen))
    as (tr & te & w' & xs' & Hrun & Hperm & Htr & Hte & _).
  rewrite slice_bound_cut, Nat2Z.id, <- (Permutation_length Hperm) in Htr, Hte by lia.
  rewrite take_ge in Htr by done. rewrite drop_ge in Hte by done.
  exists tr, te, w', xs'. by repeat split.
Qed.

(** X8. On an empty list [split_data] returns two empty lists, for every
    fraction of [[0, 1]]. *)
Theorem split_data_empty w data prob :
  heap w !! data = Some [] →
  fraction prob →
  ∃ train test w',
    split_data data prob w = (Ok (train, test), w')
    ∧ heap w' !! train = Some [] ∧ heap w' !! test = Some [].
Proof.
  intros Hdata Hprob.
  destruct (cut_point_in_unit 0 prob ltac:(done) (fraction_in_unit _ Hprob))
    as [Hcut _].
  destruct (split_data_ok data prob w [] _ Hdata Hcut)
    as (tr & te & w' & xs' & Hrun & Hperm & Htr & Hte & _).
  apply Permutation_nil_r in Hperm as ->.
  rewrite take_nil in Htr. rewrite drop_nil in Hte.
  by exists tr, te, w'.
Qed.

End SplitDataMore.

(** * Further properties of [train_test_split] *)

Section TrainTestSplitMore.

Context {A : Type}.
Implicit Types (w : world A) (xs ys : loc) (lx ly : list (val A)).

Import F64 F64Facts.

(** ** Computations that only add objects *)

Lemma extends_ret {T} (a : T) : extends (mret a : M A T).
Proof. by intros w. Qed.

Lemma extends_lift {T} (r : result T) : extends (lift r : M A T).
Proof. by intros w. Qed.

Lemma extends_bind {T U} (m : M A T) (f : T → M A U) :
  extends m → (∀ a, extends (f a)) → extends (m ≫= f).
Proof.
  intros Hm Hf w. rewrite bind_run. specialize (Hm w).
  destruct (m w) as [[a|e] w1]; [|done].
  etrans; [exact Hm|]. apply Hf.
Qed.

Lemma extends_get_list x : extends (get_list (A := A) x).
Proof. intros w. unfold get_list. by destruct (heap w !! x). Qed.

Lemma extends_alloc (vs : list (val A)) : extends (alloc vs).
Proof. intros w. apply insert_fresh_subseteq. Qed.

Lemma extends_len x : extends (len (A := A) x).
Proof.
  apply extends_bind; [apply extends_get_list|]. intros l. apply extends_ret.
Qed.

Lemma extends_getitem x (i : val A) : extends (getitem x i).
Proof.
  destruct i as [z|a]; [|apply extends_lift].
  apply extends_bind; [apply extends_get_list|]. intros l.
  destruct (_ ≫= _); [apply extends_ret|apply extends_lift].
Qed.

Lemma extends_collect x (idxs : list (val A)) : extends (collect x idxs).
Proof.
  induction idxs as [|i idxs IH]; [apply extends_ret|].
  cbn [collect]. apply extends_bind; [apply extends_getitem|]. intros v.
  apply extends_bind; [exact IH|]. intros vs. apply extends_ret.
Qed.

Lemma extends_select x idxs : extends (select (A := A) x idxs).
Proof.
  apply extends_bind; [apply extends_get_list|]. intros ixs.
  apply extends_bind; [apply extends_collect|]. intros vs. apply extends_alloc.
Qed.

Lemma extends_train_test_split xs ys test_pct :
  extends (train_test_split (A := A) xs ys test_pct).
Proof.
  apply extends_bind; [apply extends_len|]. intros n.
  apply extends_bind; [apply extends_alloc|]. intros idxs.
  apply extends_bind; [apply extends_lift|]. intros prob.
  apply extends_bind; [intros w; apply split_data_frame|]. intros [tr te].
  repeat (apply extends_bind; [apply extends_select|]; intros ?).
  apply extends_ret.
Qed.

(** ** Reading a list at a list of indices *)

(** Reading a list at the indices [j, j+1, ..., j+n-1] gives that stretch
    of the list. *)
Lemma gather_seq {B} (l : list B) n : ∀ j ws,
  Forall2 (λ i v, l !! i = Some v) (seq j n) ws → ws = take n (drop j l).
Proof.
  induction n as [|n IH]; intros j ws H; simpl in H.
  - apply Forall2_nil_inv_l in H as ->. by rewrite take_0.
  - apply Forall2_cons_inv_l in H as (v & ws' & Hv & Hws & ->).
    rewrite (drop_S _ _ _ Hv). simpl. f_equal. by apply IH.
Qed.

(** Reading a list at a permutation of its first [n] indices gives a
    permutation of its first [n] elements. *)
Lemma gather_permutation {B} (l : list B) (ixs : list nat) vs n :
  ixs ≡ₚ seq 0 n →
  Forall2 (λ i v, l !! i = Some v) ixs vs → vs ≡ₚ take n l.
Proof.
  intros Hp H.
  destruct (Permutation_Forall2 Hp H) as (ws & Hvs & Hws).
  apply gather_seq in Hws. rewrite drop_0 in Hws. by rewrite Hvs, Hws.
Qed.

Lemma gather_zip {B C} (l : list B) (k : list C) (ixs : list nat) : ∀ vs us,
  Forall2 (λ i v, l !! i = Some v) ixs vs →
  Forall2 (λ i u, k !! i = Some u) ixs us →
  Forall2 (λ i p, zip l k !! i = Some p) ixs (zip vs us).
Proof.
  induction ixs as [|i ixs IH]; intros vs us Hv Hu.
  - apply Forall2_nil_inv_l in Hv as ->. constructor.
  - apply Forall2_cons_inv_l in Hv as (v & vs' & Hv & Hvs & ->).
    apply Forall2_cons_inv_l in Hu as (u & us' & Hu & Hus & ->).
    simpl. constructor; [|by apply IH].
    apply lookup_zip_with_Some. by exists v, u.
Qed.

(** The successful run, in full: when the labels are at least as many as
    the inputs and the cutoff is [cut]. *)
Lemma train_test_split_returns w xs ys lx ly test_pct cut :
  heap w !! xs = Some lx → heap w !! ys = Some ly →
  (length lx <= length ly)%nat →
  cut_point (length lx) (sub one test_pct) = Ok cut →
  ∃ (ixs : list nat) x_train x_test y_train y_test w' v1 v2 v3 v4,
    ixs ≡ₚ seq 0 (length lx)
    ∧ train_test_split xs ys test_pct w
      = (Ok (x_train, x_test, y_train, y_test), w')
    ∧ heap w' !! x_train = Some v1 ∧ heap w' !! x_test = Some v2
    ∧ heap w' !! y_train = Some v3 ∧ heap w' !! y_test = Some v4
    ∧ Forall2 (λ i v, lx !! i = Some v) (take (slice_bound (length lx) cut) ixs) v1
    ∧ Forall2 (λ i v, lx !! i = Some v) (drop (slice_bound (length lx) cut) ixs) v2
    ∧ Forall2 (λ i v, ly !! i = Some v) (take (slice_bound (length lx) cut) ixs) v3
    ∧ Forall2 (λ i v, ly !! i = Some v) (drop (slice_bound (length lx) cut) ixs) v4.
Proof.
  intros Hxs Hys Hlen Hcut.
  pose proof (train_test_split_run xs ys test_pct w lx ly Hxs Hys) as Hrun.
  cbn zeta in Hrun. rewrite Hcut in Hrun.
  destruct Hrun as (ixs & v1 & v2 & Hperm & Hv1 & Hv2 & Hrun).
  set (k := slice_bound (length lx) cut) in *.
  assert (Hrange : Forall (λ i, (i < length ly)%nat) ixs).
  { apply Forall_forall. intros i Hi. rewrite Hperm in Hi.
    apply elem_of_seq in Hi. lia. }
  destruct (mapM_lookup_total ly (take k ixs)) as [v3 Hv3];
    [by apply Forall_take|].
  destruct (mapM_lookup_total ly (drop k ixs)) as [v4 Hv4];
    [by apply Forall_drop|].
  rewrite Hv3, Hv4 in Hrun.
  destruct Hrun as (x_train & x_test & y_train & y_test & w' & Hrun & H1 & H2 & H3 & H4).
  apply mapM_Some in Hv1, Hv2, Hv3, Hv4.
  exists ixs, x_train, x_test, y_train, y_test, w', v1, v2, v3, v4.
  by repeat split.
Qed.

(** X9. [train_test_split] only adds objects to the store: the two lists
    it is given, and every other list, have the same contents after the
    call, for every [test_pct] and also when the call raises. *)
Theorem train_test_split_keeps_store w xs ys test_pct l zs :
  heap w !! l = Some zs →
  heap (train_test_split xs ys test_pct w).2 !! l = Some zs.
Proof.
  intros Hl. eapply lookup_weaken; [exact Hl|]. apply extends_train_test_split.
Qed.

(** X10. With at least as many labels as inputs the call returns; the
    inputs returned are a permutation of [xs], and the labels returned are
    a permutation of the first [len(xs)] labels: labels beyond are never
    read. *)
Theorem train_test_split_extra_labels w xs ys lx ly test_pct :
  heap w !! xs = Some lx → heap w !! ys = Some ly →
  (length lx <= length ly)%nat →
  Z.of_nat (length lx) < 2 ^ 63 →
  fraction test_pct →
  ∃ x_train x_test y_train y_test w' v1 v2 v3 v4,
    train_test_split xs ys test_pct w
    = (Ok (x_train, x_test, y_train, y_test), w')
    ∧ heap w' !! x_train = Some v1 ∧ heap w' !! x_test = Some v2
    ∧ heap w' !! y_train = Some v3 ∧ heap w' !! y_test = Some v4
    ∧ v1 ++ v2 ≡ₚ lx
    ∧ v3 ++ v4 ≡ₚ take (length lx) ly.
Proof.
  intros Hxs Hys Hlen Hn Hpct.
  pose proof (sub_one_in_unit _ (fraction_in_unit _ Hpct)) as Hprob.
  destruct (cut_point_ok _ _ Hn Hprob) as (cut & Hcut & _).
  destruct (train_test_split_returns w xs ys lx ly test_pct cut Hxs Hys Hlen Hcut)
    as (ixs & x_train & x_test & y_train & y_test & w' & v1 & v2 & v3 & v4
        & Hperm & Hrun & H1 & H2 & H3 & H4 & F1 & F2 & F3 & F4).
  exists x_train, x_test, y_train, y_test, w', v1, v2, v3, v4.
  repeat split; try done.
  - rewrite <- (take_ge lx (length lx)) by done.
    apply gather_permutation with (ixs := ixs); [done|].
    rewrite <- (take_drop (slice_bound (length lx) cut) ixs). by apply Forall2_app.
  - apply gather_permutation with (ixs := ixs); [done|].
    rewrite <- (take_drop (slice_bound (length lx) cut) ixs). by apply Forall2_app.
Qed.

(** X11. With lists of equal length no pair is broken or lost: pairing
    [x_train] with [y_train] and [x_test] with [y_test] gives, together, a
    permutation of the pairs [(xs[i], ys[i])]. *)
Theorem train_test_split_keeps_pairs w xs ys lx ly test_pct :
  heap w !! xs = Some lx → heap w !! ys = Some ly →
  length lx = length ly →
  Z.of_nat (length lx) < 2 ^ 63 →
  fraction test_pct →
  ∃ x_train x_test y_train y_test w' v1 v2 v3 v4,
    train_test_split xs ys test_pct w
    = (Ok (x_train, x_test, y_train, y_test), w')
    ∧ heap w' !! x_train = Some v1 ∧ heap w' !! x_test = Some v2
    ∧ heap w' !! y_train = Some v3 ∧ heap w' !! y_test = Some v4
    ∧ zip v1 v3 ++ zip v2 v4 ≡ₚ zip lx ly.
Proof.
  intros Hxs Hys Hlen Hn Hpct.
  pose proof (sub_one_in_unit _ (fraction_in_unit _ Hpct)) as Hprob.
  destruct (cut_point_ok _ _ Hn Hprob) as (cut & Hcut & _).
  destruct (train_test_split_returns w xs ys lx ly test_pct cut Hxs Hys
              ltac:(lia) Hcut)
    as (ixs & x_train & x_test & y_train & y_test & w' & v1 & v2 & v3 & v4
        & Hperm & Hrun & H1 & H2 & H3 & H4 & F1 & F2 & F3 & F4).
  exists x_train, x_test, y_train, y_test, w', v1, v2, v3, v4.
  repeat split; try done.
  assert (Hz : length (zip lx ly) = length lx).
  { rewrite length_zip_with. lia. }
  rewrite <- (take_ge (zip lx ly) (length lx)) by lia.
  apply gather_permutation with (ixs := ixs); [done|].
  rewrite <- (take_drop (slice_bound (length lx) cut) ixs).
  apply Forall2_app; by apply gather_zip.
Qed.

(** X12. The training lists have [floor(len(xs) * (1 - test_pct))]
    elements, product and difference being those of binary64, and the
    test lists have the other [len(xs) - floor(...)]. *)
Theorem train_test_split_sizes w xs ys lx ly test_pct :
  heap w !! xs = Some lx → heap w !! ys = Some ly →
  (length lx <= length ly)%nat →
  Z.of_nat (length lx) < 2 ^ 53 →
  fraction test_pct →
  ∃ x x_train x_test y_train y_test w' v1 v2 v3 v4,
    int_mul_float (Z.of_nat (length lx)) (sub one test_pct) = Ok x
    ∧ train_test_split xs ys test_pct w
      = (Ok (x_train, x_test, y_train, y_test), w')
    ∧ heap w' !! x_train = Some v1 ∧ heap w' !! x_test = Some v2
    ∧ heap w' !! y_train = Some v3 ∧ heap w' !! y_test = Some v4
    ∧ Z.of_nat (length v1) = float_floor x
    ∧ Z.of_nat (length v3) = float_floor x
    ∧ Z.of_nat (length v2) = Z.of_nat (length lx) - float_floor x
    ∧ Z.of_nat (length v4) = Z.of_nat (length lx) - float_floor x.
Proof.
  intros Hxs Hys Hlen Hn Hpct.
  pose proof (sub_one_in_unit _ (fraction_in_unit _ Hpct)) as Hprob.
  destruct (cut_point_in_unit _ _ Hn Hprob) as [Hcut Hrange].
  set (x := mul (round_int (Z.of_nat (length lx))) (sub one test_pct)) in *.
  assert (Hx : int_mul_float (Z.of_nat (length lx)) (sub one test_pct) = Ok x).
  { assert (Hn' : 0 <= Z.of_nat (length lx) < 2 ^ 53) by lia.
    unfold int_mul_float, float_of_int.
    by rewrite (le_int_finite _ _ (round_int_le _ Hn')). }
  destruct (train_test_split_returns w xs ys lx ly test_pct _ Hxs Hys Hlen Hcut)
    as (ixs & x_train & x_test & y_train & y_test & w' & v1 & v2 & v3 & v4
        & Hperm & Hrun & H1 & H2 & H3 & H4 & F1 & F2 & F3 & F4).
  exists x, x_train, x_test, y_train, y_test, w', v1, v2, v3, v4.
  rewrite slice_bound_cut in F1, F2, F3, F4 by done.
  apply Forall2_length in F1, F2, F3, F4.
  apply Permutation_length in Hperm. rewrite length_seq in Hperm.
  rewrite length_take in F1, F3. rewrite length_drop in F2, F4.
  repeat split; try done; lia.
Qed.

(** X13. The notebook's check of [train_test_split(xs, ys, 0.25)] on
    1000 inputs and 1000 labels, [len(x_train) == len(y_train) == 750] and
    [len(x_test) == len(y_test) == 250], holds whatever the lists contain
    and whatever the random source draws. *)
Theorem notebook_split_sizes w xs ys lx ly :
  heap w !! xs = Some lx → heap w !! ys = Some ly →
  length lx = 1000%nat → length ly = 1000%nat →
  ∃ x_train x_test y_train y_test w' v1 v2 v3 v4,
    train_test_split xs ys quarter w
    = (Ok (x_train, x_test, y_train, y_test), w')
    ∧ heap w' !! x_train = Some v1 ∧ heap w' !! x_test = Some v2
    ∧ heap w' !! y_train = Some v3 ∧ heap w' !! y_test = Some v4
    ∧ length v1 = 750%nat ∧ length v3 = 750%nat
    ∧ length v2 = 250%nat ∧ length v4 = 250%nat.
Proof.
  intros Hxs Hys Hlx Hly.
  assert (Hcut : cut_point (length lx) (sub one quarter) = Ok 750).
  { rewrite Hlx. reflexivity. }
  destruct (train_test_split_returns w xs ys lx ly quarter 750 Hxs Hys
              ltac:(lia) Hcut)
    as (ixs & x_train & x_test & y_train & y_test & w' & v1 & v2 & v3 & v4
        & Hperm & Hrun & H1 & H2 & H3 & H4 & F1 & F2 & F3 & F4).
  exists x_train, x_test, y_train, y_test, w', v1, v2, v3, v4.
  rewrite slice_bound_cut in F1, F2, F3, F4 by lia.
  apply Forall2_length in F1, F2, F3, F4.
  apply Permutation_length in Hperm. rewrite length_seq, Hlx in Hperm.
  rewrite length_take in F1, F3. rewrite length_drop in F2, F4.
  repeat split; try done; lia.
Qed.

End TrainTestSplitMore.

(** * Further properties of the metrics *)

Section MetricsMore.

Import F64 F64Facts.

Lemma div_eucl_mul a k : 0 < a → Z.div_eucl (a * k) a = (k, 0).
Proof.
  intros Ha. pose proof (Z.div_mul k a ltac:(lia)) as Hq.
  pose proof (Z.mod_mul k a ltac:(lia)) as Hr.
  rewrite (Z.mul_comm k a) in Hq, Hr. unfold Z.div in Hq. unfold Z.modulo in Hr.
  destruct (Z.div_eucl (a * k) a) as [q r]. by subst.
Qed.

(** The quotient of a positive integer by itself rounds to [1.0]. *)
Lemma round_quot_same a : 0 < a → round_quot a a = one.
Proof.
  intros Ha. unfold round_quot.
  replace (a <? 0) with false by (symmetry; apply Z.ltb_ge; lia).
  replace (a =? 0) with false by (symmetry; apply Z.eqb_neq; lia).
  rewrite Z.abs_eq by lia. unfold SFdiv_core_binary.
  replace (Zdigits2 a + 0 - (Zdigits2 a + 0)) with 0 by lia.
  change (Z.min (fexp prec emax 0) (0 - 0)) with (-53).
  change (0 - 0 - -53) with 53.
  cbv beta iota zeta.
  rewrite Z.shiftl_mul_pow2 by lia. rewrite div_eucl_mul by done.
  by rewrite new_location_0.
Qed.

Variables tp fp fn tn : Z.
Hypothesis Htp : 0 <= tp.
Hypothesis Hfp : 0 <= fp.
Hypothesis Hfn : 0 <= fn.
Hypothesis Htn : 0 <= tn.

(** X14. On non-negative counts with a positive denominator, accuracy,
    precision and recall are floats between [0.0] and [1.0]. *)
Theorem metrics_in_unit_interval :
  (0 < tp + fp + fn + tn → ∃ a, accuracy tp fp fn tn = Ok a ∧ in_unit a)
  ∧ (0 < tp + fp → ∃ p, precision tp fp fn tn = Ok p ∧ in_unit p)
  ∧ (0 < tp + fn → ∃ r, recall tp fp fn tn = Ok r ∧ in_unit r).
Proof.
  unfold accuracy, precision, recall.
  repeat split; intros H; eexists; apply int_truediv_ratio; lia.
Qed.

(** X15. Without false positives precision is exactly [1.0], without
    false negatives recall is exactly [1.0], without either accuracy is
    exactly [1.0] and so is the F1 score; without true positives
    precision and recall are exactly [0.0] where they are defined. *)
Theorem metrics_extremes :
  (0 < tp → fp = 0 → precision tp fp fn tn = Ok one)
  ∧ (0 < tp → fn = 0 → recall tp fp fn tn = Ok one)
  ∧ (0 < tp + tn → fp = 0 → fn = 0 → accuracy tp fp fn tn = Ok one)
  ∧ (0 < tp → fp = 0 → fn = 0 → f1_score tp fp fn tn = Ok one)
  ∧ (tp = 0 → 0 < fp → precision tp fp fn tn = Ok zero)
  ∧ (tp = 0 → 0 < fn → recall tp fp fn tn = Ok zero).
Proof.
  assert (Hsame : ∀ a, 0 < a → int_truediv a a = Ok one).
  { intros a Ha. destruct (int_truediv_ratio a a ltac:(lia) Ha) as [-> _].
    by rewrite round_quot_same. }
  unfold accuracy, precision, recall.
  repeat split.
  - intros H ->. rewrite Z.add_0_r. by apply Hsame.
  - intros H ->. rewrite Z.add_0_r. by apply Hsame.
  - intros H -> ->. rewrite !Z.add_0_r. by apply Hsame.
  - intros H -> ->. unfold f1_score, precision, recall.
    rewrite Z.add_0_r, (Hsame _ H). reflexivity.
  - intros -> H. apply int_truediv_0_l; lia.
  - intros -> H. apply int_truediv_0_l; lia.
Qed.

End MetricsMore.

(** * The further properties on the sample inputs *)

Lemma split_data_keeps_store_witness :
  heap (split_data 1%positive three_quarters sample_world).2 !! 2%positive
  = Some sample_labels.
Proof.
  apply (split_data_keeps_store sample_world 1%positive three_quarters).
  reflexivity.
Defined.

Lemma split_data_results_fresh_witness :
  ∃ train test w',
    split_data 1%positive three_quarters sample_world = (Ok (train, test), w')
    ∧ (heap sample_world !! train = None ∧ heap sample_world !! test = None
       ∧ train ≠ test ∧ train ≠ 1%positive ∧ test ≠ 1%positive).
Proof.
  eexists _, _, _. split; [reflexivity|].
  eapply (split_data_results_fresh sample_world 1%positive sample_inputs
            three_quarters); reflexivity.
Defined.

Lemma split_data_partition_any_prob_witness :
  ∃ train test w',
    split_data 1%positive one_and_half sample_world = (Ok (train, test), w')
    ∧ ∃ ltrain ltest,
        heap w' !! train = Some ltrain ∧ heap w' !! test = Some ltest
        ∧ ltrain ++ ltest ≡ₚ sample_inputs.
Proof.
  eexists _, _, _. split; [reflexivity|].
  eapply (split_data_partition_any_prob sample_world 1%positive sample_inputs
            one_and_half); reflexivity.
Defined.

Lemma split_data_exceptions_witness :
  ValueError = ValueError ∨ ValueError = OverflowError.
Proof.
  apply (split_data_exceptions sample_world 1%positive sample_inputs S754_nan);
    reflexivity.
Defined.

Lemma split_data_nan_witness :
  (split_data 1%positive S754_nan sample_world).1 = Raise ValueError.
Proof.
  apply (split_data_nan sample_world 1%positive sample_inputs); reflexivity.
Defined.

Lemma split_data_zero_fraction_witness :
  ∃ train test w' ltest,
    split_data 1%positive (S754_zero false) sample_world = (Ok (train, test), w')
    ∧ heap w' !! train = Some [] ∧ heap w' !! test = Some ltest
    ∧ ltest ≡ₚ sample_inputs.
Proof.
  apply (split_data_zero_fraction sample_world 1%positive sample_inputs false);
    reflexivity.
Defined.

Lemma split_data_full_fraction_witness :
  ∃ train test w' ltrain,
    split_data 1%positive F64.one sample_world = (Ok (train, test), w')
    ∧ heap w' !! train = Some ltrain ∧ heap w' !! test = Some []
    ∧ ltrain ≡ₚ sample_inputs.
Proof.
  apply (split_data_full_fraction sample_world 1%positive sample_inputs);
    reflexivity.
Defined.

Lemma split_data_empty_witness :
  ∃ train test w',
    split_data 1%positive three_quarters empty_world = (Ok (train, test), w')
    ∧ heap w' !! train = Some [] ∧ heap w' !! test = Some [].
Proof.
  apply (split_data_empty empty_world 1%positive three_quarters);
    [reflexivity|]. repeat split; reflexivity.
Defined.

Lemma train_test_split_keeps_store_witness :
  heap (train_test_split 1%positive 2%positive quarter sample_world).2
    !! 2%positive
  = Some sample_labels.
Proof.
  apply (train_test_split_keeps_store sample_world 1%positive 2%positive quarter).
  reflexivity.
Defined.

Lemma train_test_split_extra_labels_witness :
  ∃ x_train x_test y_train y_test w' v1 v2 v3 v4,
    train_test_split 1%positive 2%positive quarter more_labels_world
    = (Ok (x_train, x_test, y_train, y_test), w')
    ∧ heap w' !! x_train = Some v1 ∧ heap w' !! x_test = Some v2
    ∧ heap w' !! y_train = Some v3 ∧ heap w' !! y_test = Some v4
    ∧ v1 ++ v2 ≡ₚ sample_inputs
    ∧ v3 ++ v4
      ≡ₚ take (length sample_inputs) (VObj <$> [20; 21; 22; 23; 24]%nat).
Proof.
  apply (train_test_split_extra_labels more_labels_world 1%positive 2%positive
           sample_inputs (VObj <$> [20; 21; 22; 23; 24]%nat) quarter).
  - reflexivity.
  - reflexivity.
  - simpl. lia.
  - reflexivity.
  - repeat split; reflexivity.
Defined.

Lemma train_test_split_keeps_pairs_witness :
  ∃ x_train x_test y_train y_test w' v1 v2 v3 v4,
    train_test_split 1%positive 2%positive quarter sample_world
    = (Ok (x_train, x_test, y_train, y_test), w')
    ∧ heap w' !! x_train = Some v1 ∧ heap w' !! x_test = Some v2
    ∧ heap w' !! y_train = Some v3 ∧ heap w' !! y_test = Some v4
    ∧ zip v1 v3 ++ zip v2 v4 ≡ₚ zip sample_inputs sample_labels.
Proof.
  apply (train_test_split_keeps_pairs sample_world 1%positive 2%positive
           sample_inputs sample_labels quarter).
  - reflexivity.
  - reflexivity.
  - reflexivity.
  - reflexivity.
  - repeat split; reflexivity.
Defined.

Lemma train_test_split_sizes_witness :
  ∃ x x_train x_test y_train y_test w' v1 v2 v3 v4,
    int_mul_float (Z.of_nat (length sample_inputs)) (F64.sub F64.one quarter)
    = Ok x
    ∧ train_test_split 1%positive 2%positive quarter sample_world
      = (Ok (x_train, x_test, y_train, y_test), w')
    ∧ heap w' !! x_train = Some v1 ∧ heap w' !! x_test = Some v2
    ∧ heap w' !! y_train = Some v3 ∧ heap w' !! y_test = Some v4
    ∧ Z.of_nat (length v1) = float_floor x
    ∧ Z.of_nat (length v3) = float_floor x
    ∧ Z.of_nat (length v2) = Z.of_nat (length sample_inputs) - float_floor x
    ∧ Z.of_nat (length v4) = Z.of_nat (length sample_inputs) - float_floor x.
Proof.
  apply (train_test_split_sizes sample_world 1%positive 2%positive
           sample_inputs sample_labels quarter).
  - reflexivity.
  - reflexivity.
  - simpl. lia.
  - reflexivity.
  - repeat split; reflexivity.
Defined.

Lemma notebook_split_sizes_witness :
  ∃ x_train x_test y_train y_test w' v1 v2 v3 v4,
    train_test_split 1%positive 2%positive quarter notebook_world
    = (Ok (x_train, x_test, y_train, y_test), w')
    ∧ heap w' !! x_train = Some v1 ∧ heap w' !! x_test = Some v2
    ∧ heap w' !! y_train = Some v3 ∧ heap w' !! y_test = Some v4
    ∧ length v1 = 750%nat ∧ length v3 = 750%nat
    ∧ length v2 = 250%nat ∧ length v4 = 250%nat.
Proof.
  apply (notebook_split_sizes notebook_world 1%positive 2%positive
           notebook_xs notebook_ys); vm_compute; reflexivity.
Defined.

Lemma metrics_in_unit_interval_witness :
  (0 < 70 + 4930 + 13930 + 981070 →
     ∃ a, accuracy 70 4930 13930 981070 = Ok a ∧ F64.in_unit a)
  ∧ (0 < 70 + 4930 → ∃ p, precision 70 4930 13930 981070 = Ok p ∧ F64.in_unit p)
  ∧ (0 < 70 + 13930 → ∃ r, recall 70 4930 13930 981070 = Ok r ∧ F64.in_unit r).
Proof. apply (metrics_in_unit_interval 70 4930 13930 981070); lia. Defined.

Lemma metrics_extremes_witness :
  (0 < 5 → 0 = 0 → precision 5 0 0 3 = Ok F64.one)
  ∧ (0 < 5 → 0 = 0 → recall 5 0 0 3 = Ok F64.one)
  ∧ (0 < 5 + 3 → 0 = 0 → 0 = 0 → accuracy 5 0 0 3 = Ok F64.one)
  ∧ (0 < 5 → 0 = 0 → 0 = 0 → f1_score 5 0 0 3 = Ok F64.one)
  ∧ (5 = 0 → 0 < 0 → precision 5 0 0 3 = Ok F64.zero)
  ∧ (5 = 0 → 0 < 0 → recall 5 0 0 3 = Ok F64.zero).
Proof. apply (metrics_extremes 5 0 0 3); lia. Defined.

(** * Rounding between two floats *)

Module F64Between.

Import F64 F64Facts F64Exact.

(** One normalisation step keeps the number above a bound [n * 2^g]. *)
Lemma shr_fexp_lower_scaled m e l n N g :
  0 <= m → e <= g → -1074 <= g → 0 <= N < 2 ^ 53 → 0 <= n →
  loc_ceil m l <= N * 2 ^ (g - e) → n * 2 ^ (g - e) <= m →
  ∀ mrs' e', shr_fexp prec emax m e l = (mrs', e') →
  n * 2 ^ (g - e') <= shr_m mrs'.
Proof.
  intros Hm He Hg HN Hn Hc Hlow mrs' e' Hshr.
  destruct (shr_fexp_bound m e l N g Hm He Hg HN Hc _ _ Hshr) as [He' _].
  revert Hshr. unfold shr_fexp, shr.
  destruct (fexp prec emax (Zdigits2 m + e) - e) as [|k|k] eqn:Hk;
    intros [= <- <-]; rewrite ?shr_record_of_loc_m; try done.
  assert (HP' : 0 < 2 ^ (g - (e + Zpos k))) by (apply Z.pow_pos_nonneg; lia).
  apply iter_shr_1_lower; [nia|]. rewrite shr_record_of_loc_m.
  replace (2 ^ Zpos k * (n * 2 ^ (g - (e + Zpos k)))) with (n * 2 ^ (g - e)); [done|].
  replace (g - e) with (Zpos k + (g - (e + Zpos k))) at 1 by lia.
  rewrite Z.pow_add_r by lia. lia.
Qed.

(** Rounding to nearest never crosses a float [n * 2^g] from above: a
    number of [[n * 2^g, N * 2^g]] rounds to a binary64 that is at least
    [n * 2^g]. *)
Lemma binary_round_aux_lower m e l n N g :
  e <= g → -1074 <= g <= 971 → 0 < n → 0 <= N < 2 ^ 53 →
  n * 2 ^ (g - e) <= m → loc_ceil m l <= N * 2 ^ (g - e) →
  ge_scaled (binary_round_aux prec emax false m e l) n g.
Proof.
  intros He [Hg Hg'] Hn HN Hlow Hc.
  assert (HP : 0 < 2 ^ (g - e)) by (apply Z.pow_pos_nonneg; lia).
  assert (Hm : 0 <= m) by nia.
  unfold binary_round_aux.
  destruct (shr_fexp prec emax m e l) as [mrs1 e1] eqn:H1.
  destruct (shr_fexp_bound _ _ _ _ _ Hm He Hg HN Hc _ _ H1) as [He1 Hb1].
  pose proof (shr_fexp_lower_scaled _ _ _ n _ _ Hm He Hg HN ltac:(lia) Hc Hlow _ _ H1)
    as Hl1.
  pose proof (round_nearest_even_bound _ _ Hb1) as Hr.
  pose proof (round_nearest_even_lower (shr_m mrs1) (loc_of_shr_record mrs1)) as Hrl.
  set (mr := round_nearest_even _ _) in *.
  destruct (shr_fexp prec emax mr e1 loc_Exact) as [mrs2 e2] eqn:H2.
  assert (Hc2 : loc_ceil mr loc_Exact <= N * 2 ^ (g - e1)) by (simpl; lia).
  destruct (shr_fexp_bound _ _ _ _ _ (proj1 Hr) He1 Hg HN Hc2 _ _ H2)
    as [He2 [[Hm2 Hm2'] _]].
  pose proof (shr_fexp_lower_scaled _ _ _ n _ _ (proj1 Hr) He1 Hg HN ltac:(lia) Hc2
                ltac:(lia) _ _ H2) as Hl2.
  assert (HP2 : 0 < 2 ^ (g - e2)) by (apply Z.pow_pos_nonneg; lia).
  destruct (shr_m mrs2) as [|p|p]; simpl; [nia| |lia].
  replace (e2 <=? emax - prec) with true; [done|].
  symmetry. apply Z.leb_le. unfold emax, prec. lia.
Qed.

(** [int()] of a float of [[n, N]] is an integer of [[n, N]]. *)
Lemma float_floor_between f n N :
  0 <= N → le_int f N → (0 < n → ge_scaled f n 0) → n <= float_floor f <= N.
Proof.
  intros HN Hle Hge.
  destruct (py_int_floor f N HN Hle) as [_ [H0 HN']]. split; [|done].
  destruct (Z_lt_le_dec 0 n) as [Hn|Hn]; [|lia]. specialize (Hge Hn).
  destruct f as [s| | |[] m e]; try done.
  destruct Hge as [He Hm]. rewrite Z.sub_0_l in Hm. cbn [float_floor cond_Zopp].
  assert (HP : 0 < 2 ^ (- e)) by (apply Z.pow_pos_nonneg; lia).
  destruct (Z.leb_spec 0 e) as [He0|He0].
  - replace e with 0 in * by lia. change (2 ^ (- 0)) with 1 in Hm.
    change (2 ^ 0) with 1. lia.
  - apply Z.div_le_lower_bound; lia.
Qed.

(** The exact value of a float of [[0, 1]]. *)
Lemma to_Q_in_unit m e :
  e <= 0 → to_Q (S754_finite false m e) == Zpos m # Z.to_pos (2 ^ (- e)).
Proof.
  intros He. unfold to_Q. cbn [cond_Zopp].
  destruct (Z.leb_spec 0 e) as [He0|He0]; [|reflexivity].
  replace e with 0 by lia. change (2 ^ (- 0)) with 1. change (2 ^ 0) with 1.
  rewrite Z.mul_1_r. reflexivity.
Qed.

(** The product [n * p] of a list length and a fraction, rounded and
    truncated, lies between the floor and the ceiling of the exact
    product. *)
Lemma cut_point_between (n : nat) p :
  Z.of_nat n < 2 ^ 53 → in_unit p →
  let c := float_floor (mul (round_int (Z.of_nat n)) p) in
  let x := (inject_Z (Z.of_nat n) * to_Q p)%Q in
  Qfloor x <= c <= Qceiling x.
Proof.
  intros Hn Hp c x. assert (Hn' : 0 <= Z.of_nat n < 2 ^ 53) by lia.
  pose proof (round_int_exact _ Hn') as Hx.
  pose proof (round_int_le _ Hn') as Hxle.
  pose proof (mul_le_int _ _ _ Hn' Hxle Hp) as Hmle.
  unfold c, x. clear c x. set (N := Z.of_nat n) in *. clearbody N.
  destruct p as [sp| | |[] mp ep]; try done.
  - (* p = 0.0 *)
    assert (Hz : float_floor (mul (round_int N) (S754_zero sp)) = 0).
    { destruct (round_int N) as [?| | |[] ? ?]; done. }
    rewrite Hz. cbn [to_Q]. rewrite Qmult_0_r. done.
  - destruct Hp as [Hep Hmp]. rewrite Z.mul_1_l in Hmp.
    assert (HP : 0 < 2 ^ (- ep)) by (apply Z.pow_pos_nonneg; lia).
    set (x := (inject_Z N * to_Q (S754_finite false mp ep))%Q).
    assert (Hxq : x == (N * Zpos mp) # Z.to_pos (2 ^ (- ep))).
    { unfold x. rewrite to_Q_in_unit by done.
      unfold Qeq, Qmult, inject_Z. simpl. lia. }
    clearbody x.
    assert (Hfl : Qfloor x * 2 ^ (- ep) <= N * Zpos mp).
    { assert (H : (inject_Z (Qfloor x) <= (N * Zpos mp) # Z.to_pos (2 ^ (- ep)))%Q)
        by (rewrite <- Hxq; apply Qfloor_le).
      unfold Qle, inject_Z in H. simpl in H. rewrite Z2Pos.id in H by done. lia. }
    assert (Hce : N * Zpos mp <= Qceiling x * 2 ^ (- ep)).
    { assert (H : ((N * Zpos mp) # Z.to_pos (2 ^ (- ep)) <= inject_Z (Qceiling x))%Q)
        by (rewrite <- Hxq; apply Qle_ceiling).
      unfold Qle, inject_Z in H. simpl in H. rewrite Z2Pos.id in H by done. lia. }
    assert (Hce0 : 0 <= Qceiling x) by nia.
    assert (HceN : Qceiling x <= N).
    { assert (Hlt : (inject_Z (Qceiling x - 1) < (N * Zpos mp) # Z.to_pos (2 ^ (- ep)))%Q)
        by (rewrite <- Hxq; apply Qceiling_lt).
      unfold Qlt, inject_Z in Hlt. simpl in Hlt.
      rewrite Z2Pos.id in Hlt by done. nia. }
    destruct (Z.eq_dec N 0) as [->|HN0].
    { assert (Hz : float_floor (mul (round_int 0) (S754_finite false mp ep)) = 0)
        by done.
      rewrite Hz. split; [|done]. nia. }
    destruct (round_int N) as [sx| | |[] mx ex] eqn:Hri; try done.
    destruct Hx as [Hex Hmx].
    assert (HPx : 0 < 2 ^ (- ex)) by (apply Z.pow_pos_nonneg; lia).
    assert (Hsplit : 2 ^ (0 - (ex + ep)) = 2 ^ (- ex) * 2 ^ (- ep)).
    { rewrite <- Z.pow_add_r by lia. f_equal. lia. }
    apply float_floor_between; [done| |].
    + unfold mul, SFmul. simpl xorb.
      apply binary_round_aux_bound; [lia|lia|lia|]. simpl loc_ceil.
      rewrite Pos2Z.inj_mul, Hmx.
      replace (- (ex + ep)) with (0 - (ex + ep)) by lia. rewrite Hsplit. nia.
    + intros Hpos. unfold mul, SFmul. simpl xorb.
      apply binary_round_aux_lower with (N := Qceiling x); [lia|lia|done|lia| |].
      * rewrite Pos2Z.inj_mul, Hmx, Hsplit. nia.
      * simpl loc_ceil. rewrite Pos2Z.inj_mul, Hmx, Hsplit. nia.
Qed.

End F64Between.

(** * Rounding in the normal range *)

Module F64Near.

Import F64 F64Facts F64Exact F64Between.








End F64Near.

(** * Exact values and relative errors *)

Module F64Value.

Import F64 F64Facts F64Exact F64Between F64Near.

Lemma pow2Q_pos g : (0 < 2 ^ g)%Q.
Proof. by apply Qpower_0_lt. Qed.


Lemma pow2Q_inject k : 0 <= k → (inject_Z (2 ^ k) == 2 ^ k)%Q.
Proof. intros Hk. by rewrite Zpower_Qpower. Qed.



(** The value of a positive finite float. *)
Lemma to_Q_finite m e :
  (to_Q (S754_finite false m e) == inject_Z (Zpos m) * 2 ^ e)%Q.
Proof.
  unfold to_Q. cbn [cond_Zopp].
  destruct (Z.leb_spec 0 e) as [He|He].
  - by rewrite inject_Z_mult, pow2Q_inject.
  - assert (HP : 0 < 2 ^ (- e)) by (apply Z.pow_pos_nonneg; lia).
    rewrite Qmake_Qdiv, Z2Pos.id by done. rewrite pow2Q_inject by lia.
    rewrite Qpower_opp. unfold Qdiv. by rewrite Qinv_involutive.
Qed.

Lemma to_Q_positive m e : (0 < to_Q (S754_finite false m e))%Q.
Proof.
  rewrite to_Q_finite. apply Qmult_lt_0_compat; [|apply pow2Q_pos].
  by rewrite <- (Zlt_Qlt 0).
Qed.




Lemma normal_in_positive f lo hi : normal_in f lo hi → (0 < to_Q f)%Q.
Proof. destruct f as [| | |[] m e]; try done. intros _. apply to_Q_positive. Qed.







End F64Value.

(** * The rounded quotient of two integers *)

Module F64Quot.

Import F64 F64Facts F64Exact F64Between F64Near F64Value.




End F64Quot.

(** * The sizes of the two parts of [split_data] *)

Section SplitDataLengths.

Context {A : Type}.

Import F64 F64Facts F64Between.

(** C2, as the code has it: for a list of fewer than [2^53] elements
    (its length is then a float) and a fraction [p] of [[0, 1]], the
    first list returned has [floor(len(data) * p)] elements where [*] is
    the binary64 product Python computes.  That count lies between the
    floor and the ceiling of the exact product [len(data) x p]: it is
    the exact floor, or one more when the product rounds up to the next
    integer.  The second list has the remaining elements. *)
Theorem split_data_lengths (data : loc) p (w : world A) xs :
  heap w !! data = Some xs →
  Z.of_nat (length xs) < 2 ^ 53 →
  fraction p →
  ∃ train test w' tr te,
    split_data data p w = (Ok (train, test), w') ∧
    heap w' !! train = Some tr ∧
    heap w' !! test = Some te ∧
    Z.of_nat (length tr) =
      float_floor (mul (round_int (Z.of_nat (length xs))) p) ∧
    Qfloor (inject_Z (Z.of_nat (length xs)) * to_Q p)
      <= Z.of_nat (length tr)
      <= Qceiling (inject_Z (Z.of_nat (length xs)) * to_Q p) ∧
    length te = (length xs - length tr)%nat ∧
    (length tr <= length xs)%nat.
Proof.
  intros Hd Hn Hp. apply fraction_in_unit in Hp.
  destruct (cut_point_in_unit _ _ Hn Hp) as [Hc Hb].
  pose proof (cut_point_between _ _ Hn Hp) as Hbetween. cbn zeta in Hbetween.
  destruct (split_data_ok _ _ _ _ _ Hd Hc)
    as (train & test & w' & xs' & Hr & Hperm & Htr & Hte & _).
  rewrite slice_bound_cut in Htr, Hte by done.
  apply Permutation_length in Hperm.
  eexists train, test, w', _, _. split; [done|]. split; [done|]. split; [done|].
  rewrite length_take, length_drop, Hperm.
  set (c := float_floor _) in *.
  replace (Z.of_nat (Z.to_nat c `min` length xs)) with c by lia.
  split; [done|]. split; [done|]. lia.
Qed.

End SplitDataLengths.

Lemma split_data_lengths_witness :
  heap ten_world !! 1%positive = Some ten_inputs ∧
  Z.of_nat (length ten_inputs) < 2 ^ 53 ∧
  F64.fraction seven_tenths ∧
  ∃ train test w' tr te,
    split_data 1%positive seven_tenths ten_world = (Ok (train, test), w') ∧
    heap w' !! train = Some tr ∧
    heap w' !! test = Some te ∧
    Z.of_nat (length tr) =
      float_floor (F64.mul (F64.round_int (Z.of_nat (length ten_inputs)))
                     seven_tenths) ∧
    Qfloor (inject_Z (Z.of_nat (length ten_inputs)) * F64.to_Q seven_tenths)
      <= Z.of_nat (length tr)
      <= Qceiling (inject_Z (Z.of_nat (length ten_inputs)) * F64.to_Q seven_tenths) ∧
    length te = (length ten_inputs - length tr)%nat ∧
    (length tr <= length ten_inputs)%nat.
Proof.
  assert (H1 : heap ten_world !! 1%positive = Some ten_inputs) by reflexivity.
  assert (H2 : Z.of_nat (length ten_inputs) < 2 ^ 53) by reflexivity.
  assert (H3 : F64.fraction seven_tenths) by (repeat split; reflexivity).
  exact (conj H1 (conj H2 (conj H3
           (split_data_lengths 1%positive seven_tenths ten_world
              ten_inputs H1 H2 H3)))).
Defined.

(** C2 as stated fails: with ten elements and the float nearest to 0.7,
    a fraction of [[0, 1]], the exact product is below 7 and its floor is
    6, but [split_data] returns seven elements and then three. *)
Lemma split_data_ten_by_seven_tenths :
  F64.fraction seven_tenths ∧
  Qfloor (inject_Z (Z.of_nat (length ten_inputs)) * F64.to_Q seven_tenths) = 6 ∧
  ∃ train test w' tr te,
    split_data 1%positive seven_tenths ten_world = (Ok (train, test), w') ∧
    heap w' !! train = Some tr ∧ heap w' !! test = Some te ∧
    length tr = 7%nat ∧ length te = 3%nat.
Proof.
  split; [repeat split; reflexivity|]. split; [reflexivity|].
  eexists _, _, _, _, _. split; [vm_compute; reflexivity|].
  repeat split; vm_compute; reflexivity.
Qed.

(** * Relative error brackets on rationals *)

Section Within.

#[local] Open Scope Q_scope.

Implicit Types lo hi x y z : Q.












End Within.

(** * The metrics against their closed forms *)

Section MetricsClosedForm.

Import F64 F64Facts F64Value F64Quot.

Variables tp fp fn tn : Z.
Hypothesis Htp : 0 <= tp.
Hypothesis Hfp : 0 <= fp.
Hypothesis Hfn : 0 <= fn.
Hypothesis Htn : 0 <= tn.






End MetricsClosedForm.



(** The bound on the counts matters: with denominators near [10^200] the
    product [2 * p * r] underflows and [f1_score] returns [0.0], although
    the harmonic mean is positive. *)
Example f1_score_underflows :
  f1_score 1 (10 ^ 200) (10 ^ 200) 0 = Ok F64.zero ∧
  (0 < spec_f1 1 (10 ^ 200) (10 ^ 200) 0)%Q.
Proof. split; vm_compute; reflexivity. Qed.
